(** * The Wikimedia Commons image aggregator of [main.py]

    A shallow embedding of [_fetch_json] and [search_commons_images]
    (main.py, lines 28-72) together with the properties of the aggregator.

    Python values are embedded as follows.
    - [int] is [Z]; [str] is [string], read as the UTF-8 bytes of the text,
      a lone surrogate (which a Python [str] may hold) as the three bytes
      that the error handler [surrogatepass] gives it.
    - A value decoded by [json.loads] is a [json]; a [dict] is an association
      list in insertion order (Python dicts iterate in insertion order).
    - An exception is a value of [exn]; code that may raise returns
      [exn + A], with [inl e] for "raises e".
    - The HTTP service is a function from the requests issued so far and the
      current request to the outcome of that request, so that it may answer
      the same request differently at different times.
    - The builtin [int] applied to a [str] is a Section variable: nothing
      that is proved depends on which strings it accepts. *)

From Stdlib Require Import ZArith List String Ascii Bool Lia DecimalString.
Import ListNotations.
Open Scope string_scope.
Open Scope Z_scope.
Set Warnings "-register-all".

(** ** Python values and builtins *)

Module Py.

(** The exception classes that occur.  [KeyboardInterrupt] and [SystemExit]
    derive from [BaseException] only; all the others derive from
    [Exception]. *)
Inductive exn : Type :=
| URLError | HTTPError | TimeoutError
| UnicodeDecodeError | UnicodeEncodeError | JSONDecodeError
| AttributeError | TypeError | ValueError
| KeyboardInterrupt | SystemExit.

(** [isinstance(e, Exception)] *)
Definition is_Exception (e : exn) : bool :=
  match e with
  | KeyboardInterrupt | SystemExit => false
  | _ => true
  end.

(** What [json.loads] returns.  A float keeps its lexeme: no arithmetic is
    done on it. *)
Inductive json : Type :=
| JNull
| JBool (b : bool)
| JInt (z : Z)
| JFloat (lexeme : string)
| JStr (s : string)
| JList (l : list json)
| JDict (d : list (string * json)).

(** Sequencing of computations that may raise. *)
Definition bind {A B : Type} (m : exn + A) (k : A -> exn + B) : exn + B :=
  match m with
  | inl e => inl e
  | inr a => k a
  end.

(** [d.get(key)] on the items of a dict: the value, or [None].  The keys of
    a dict that [json.loads] built are pairwise distinct, so at most one item
    has the key. *)
Fixpoint lookup (key : string) (d : list (string * json)) : option json :=
  match d with
  | [] => None
  | (k, v) :: d' => if String.eqb k key then Some v else lookup key d'
  end.

(** [x.get(key, default)]: only a dict has a method [get]. *)
Definition get (x : json) (key : string) (default : json) : exn + json :=
  match x with
  | JDict d => inr (match lookup key d with Some v => v | None => default end)
  | _ => inl AttributeError
  end.

(** [x.items()]: only a dict has a method [items]. *)
Definition items (x : json) : exn + list (string * json) :=
  match x with
  | JDict d => inr d
  | _ => inl AttributeError
  end.

(** [needle in haystack] for two strings: substring test. *)
Fixpoint substring_of (needle haystack : string) : bool :=
  String.prefix needle haystack
  || match haystack with
     | EmptyString => false
     | String _ rest => substring_of needle rest
     end.

(** [key == x] for a string [key] and a JSON value [x]. *)
Definition str_eq (key : string) (x : json) : bool :=
  match x with
  | JStr s => String.eqb key s
  | _ => false
  end.

(** [key in x] for a string [key]: membership among the keys of a dict, the
    elements of a list, the substrings of a string; [TypeError] on a value
    that is not a container. *)
Definition contains (key : string) (x : json) : exn + bool :=
  match x with
  | JDict d => inr (match lookup key d with Some _ => true | None => false end)
  | JList l => inr (existsb (str_eq key) l)
  | JStr s => inr (substring_of key s)
  | _ => inl TypeError
  end.

(** [l[:n]]: the first [n] elements, counted from the end when [n < 0]. *)
Definition slice_to {A : Type} (l : list A) (n : Z) : list A :=
  if n <? 0
  then firstn (Z.to_nat (Z.of_nat (List.length l) + n)) l
  else firstn (Z.to_nat n) l.

(** The decimal digits of an int, with its sign. *)
Definition decimal (n : Z) : string := NilZero.string_of_int (Z.to_int n).

(** [sys.int_info.default_max_str_digits]: the digits that CPython converts
    between [int] and [str] by default. *)
Definition int_max_str_digits : Z := 4300.

(** The number of decimal digits of an int. *)
Definition digits (n : Z) : Z := Z.of_nat (String.length (decimal (Z.abs n))).

(** [str(n)] for an int: [ValueError] for an int of more digits than the
    limit. *)
Definition str (n : Z) : exn + string :=
  if digits n <=? int_max_str_digits then inr (decimal n) else inl ValueError.

End Py.

Notation "x <- m ;; k" := (Py.bind m (fun x => k))
  (at level 61, m at next level, right associativity).

(** ** [urllib.parse.urlencode] *)

Module Urllib.

(** The bytes that [quote] never escapes: ASCII letters, digits and [_.-~]. *)
Definition always_safe (c : ascii) : bool :=
  let n := N_of_ascii c in
  ((65 <=? n) && (n <=? 90) || (97 <=? n) && (n <=? 122)
   || (48 <=? n) && (n <=? 57)
   || (n =? 95) || (n =? 46) || (n =? 45) || (n =? 126))%N.

Definition hex_digit (n : N) : ascii :=
  match String.get (N.to_nat n) "0123456789ABCDEF" with
  | Some c => c
  | None => "0"%char
  end.

(** One byte under [quote_plus] with [safe='']: kept, [+] for a space, or
    [%XX] with upper-case hexadecimal digits. *)
Definition quote_byte (c : ascii) : string :=
  if always_safe c then String c EmptyString
  else if Ascii.eqb c " "%char then "+"
  else let n := N_of_ascii c in
       String "%"%char
         (String (hex_digit (n / 16)%N) (String (hex_digit (n mod 16)%N) EmptyString)).

(** [quote_from_bytes] with a blank kept, then [replace(' ', '+')]. *)
Fixpoint quote_bytes (s : string) : string :=
  match s with
  | EmptyString => EmptyString
  | String c rest => quote_byte c ++ quote_bytes rest
  end.

(** The text holds a surrogate: a byte 237 followed by a byte from 160 to
    191. *)
Fixpoint has_surrogate (s : string) : bool :=
  match s with
  | String c (String d _ as rest) =>
      ((N_of_ascii c =? 237) && (160 <=? N_of_ascii d) && (N_of_ascii d <=? 191))%N
      || has_surrogate rest
  | _ => false
  end.

(** [s.encode('utf-8', 'strict')]: a surrogate cannot be encoded. *)
Definition encode (s : string) : Py.exn + string :=
  if has_surrogate s then inl Py.UnicodeEncodeError else inr s.

(** [quote_plus(s, safe='')]: the text is encoded, then quoted. *)
Definition quote_plus (s : string) : Py.exn + string :=
  bytes <- encode s ;;
  inr (quote_bytes bytes).

(** A value of the [params] dict: a [str] or an [int]. *)
Inductive value : Type :=
| VStr (s : string)
| VInt (n : Z).

(** [urlencode] turns a value that is not a [str] into [str(v)]. *)
Definition to_str (v : value) : Py.exn + string :=
  match v with
  | VStr s => inr s
  | VInt n => Py.str n
  end.

(** One item: the key is quoted, then the value. *)
Definition encode_item (kv : string * value) : Py.exn + string :=
  k <- quote_plus (fst kv) ;;
  text <- to_str (snd kv) ;;
  v <- quote_plus text ;;
  inr (k ++ "=" ++ v).

(** The items of the dict, encoded in its order up to the first that
    raises. *)
Fixpoint encode_items (params : list (string * value)) : Py.exn + list string :=
  match params with
  | [] => inr []
  | kv :: rest =>
      item <- encode_item kv ;;
      items <- encode_items rest ;;
      inr (item :: items)
  end.

(** [urlencode(params)]: the encoded items joined by [&]. *)
Definition urlencode (params : list (string * value)) : Py.exn + string :=
  items <- encode_items params ;;
  inr (String.concat "&" items).

(** [params[key]] *)
Fixpoint param (key : string) (params : list (string * value)) : option value :=
  match params with
  | [] => None
  | (k, v) :: rest => if String.eqb k key then Some v else param key rest
  end.

End Urllib.

(** ** The external service *)

(** [Request(url, headers=...)] as handed to [urlopen(req, timeout=...)]. *)
Record Request : Type := mkRequest {
  req_url : string;
  req_headers : list (string * string);
  req_timeout : Z
}.

(** The outcome of [urlopen], [read], [decode] and [json.loads] on one
    request: the decoded JSON value, or the exception one of them raised. *)
Definition Outcome : Type := (Py.exn + Py.json)%type.

(** The service: the outcome of a request, given the requests that were
    issued before it (oldest first). *)
Definition Service : Type := list Request -> Request -> Outcome.

(** main.py, lines 28-32.  The second component is the list of the
    requests issued so far, extended by this one. *)
Definition _fetch_json (service : Service) (url : string)
    (issued : list Request) : Outcome * list Request :=
  let req := mkRequest url [("User-Agent", "Flames.Blue Omsk Gallery/1.0")] 10 in
  (service issued req, (issued ++ [req])%list).

(** ** The result set *)

(** The dict built at lines 57-66. *)
Module ImageResult.
Record t : Type := mk {
  id : Z;
  title : Py.json;
  page_url : Py.json;
  thumbnail : Py.json;
  width : Py.json;
  height : Py.json;
  source : string;
  license : string
}.
End ImageResult.

(** [results: Dict[int, Dict[str, Any]]], in insertion order. *)
Definition Results : Type := list (Z * ImageResult.t).

(** [results[key] = value]: the value of a key that is present is replaced
    where it stands; a new key is added at the end. *)
Fixpoint setitem (results : Results) (key : Z) (value : ImageResult.t) : Results :=
  match results with
  | [] => [(key, value)]
  | (k, v) :: rest =>
      if k =? key then (k, value) :: rest else (k, v) :: setitem rest key value
  end.

(** [list(results.values())] *)
Definition values (results : Results) : list ImageResult.t := map snd results.

(** ** [search_commons_images] (main.py, lines 35-72) *)

Import Py.

(** Lines 40-50: the [params] dict of the request for query [q]. *)
Definition params (q : string) (limit thumb_size : Z) : list (string * Urllib.value) :=
  [ ("action", Urllib.VStr "query");
    ("format", Urllib.VStr "json");
    ("generator", Urllib.VStr "search");
    ("gsrsearch", Urllib.VStr q);
    ("gsrlimit", Urllib.VInt (Z.min limit 50));
    ("prop", Urllib.VStr "pageimages|info");
    ("inprop", Urllib.VStr "url");
    ("pithumbsize", Urllib.VInt thumb_size) ].

(** Line 51: the URL, or the exception that [urlencode] raises. *)
Definition url (q : string) (limit thumb_size : Z) : exn + string :=
  encoded <- Urllib.urlencode (params q limit thumb_size) ;;
  inr ("https://commons.wikimedia.org/w/api.php?" ++ encoded).

Section Aggregator.

(** The builtin [int] on a [str]: the integer, or [None] where [int] raises
    [ValueError]. *)
Variable int_of_str : string -> option Z.

Variable service : Service.

(** [int(pid)] *)
Definition int (pid : string) : exn + Z :=
  match int_of_str pid with
  | Some n => inr n
  | None => inl ValueError
  end.

(** Lines 57-66, right-hand side: the dict display, its items evaluated from
    top to bottom. *)
Definition image_result (pid : string) (page : json) : exn + ImageResult.t :=
  id <- int pid ;;
  title <- get page "title" JNull ;;
  page_url <- get page "fullurl" JNull ;;
  t1 <- get page "thumbnail" (JDict []) ;;
  thumbnail <- get t1 "source" JNull ;;
  t2 <- get page "thumbnail" (JDict []) ;;
  width <- get t2 "width" JNull ;;
  t3 <- get page "thumbnail" (JDict []) ;;
  height <- get t3 "height" JNull ;;
  inr (ImageResult.mk id title page_url thumbnail width height
         "Wikimedia Commons" "See source page").

(** Lines 56-66 for one page: nothing to store, or the key and the value of
    the assignment [results[int(pid)] = {...}]; the right-hand side is
    evaluated before the subscript. *)
Definition page_entry (pid : string) (page : json) : exn + option (Z * ImageResult.t) :=
  has_thumbnail <- contains "thumbnail" page ;;
  if has_thumbnail : bool
  then value <- image_result pid page ;;
       key <- int pid ;;
       inr (Some (key, value))
  else inr None.

(** Lines 55-66: the loop over [pages.items()].  It returns the dict as the
    loop leaves it and the exception that ended the loop, if one did. *)
Fixpoint pages_loop (items : list (string * json)) (results : Results)
    : Results * option exn :=
  match items with
  | [] => (results, None)
  | (pid, page) :: rest =>
      match page_entry pid page with
      | inl e => (results, Some e)
      | inr None => pages_loop rest results
      | inr (Some (key, value)) => pages_loop rest (setitem results key value)
      end
  end.

(** Line 54 and the call of [items] at line 55. *)
Definition pages_of (data : json) : exn + list (string * json) :=
  query <- get data "query" (JDict []) ;;
  pages <- get query "pages" (JDict []) ;;
  items pages.

(** Lines 53-66, the body of the [try]: the dict, the exception raised in
    the body (if any) and the requests issued so far. *)
Definition try_body (u : string) (results : Results) (issued : list Request)
    : Results * option exn * list Request :=
  let (outcome, issued') := _fetch_json service u issued in
  match data <- outcome ;; pages_of data with
  | inl e => (results, Some e, issued')
  | inr page_items =>
      let (results', raised) := pages_loop page_items results in
      (results', raised, issued')
  end.

(** Lines 39-69: the loop over [queries].  Line 51 stands before the [try]:
    what it raises leaves the function.  [except Exception: continue] goes
    on with the next query; an exception of the body that is not an
    [Exception] leaves the function. *)
Fixpoint queries_loop (queries : list string) (limit thumb_size : Z)
    (results : Results) (issued : list Request)
    : (exn + Results) * list Request :=
  match queries with
  | [] => (inr results, issued)
  | q :: rest =>
      match url q limit thumb_size with
      | inl e => (inl e, issued)
      | inr u =>
          match try_body u results issued with
          | (results', None, issued') =>
              queries_loop rest limit thumb_size results' issued'
          | (results', Some e, issued') =>
              if is_Exception e
              then queries_loop rest limit thumb_size results' issued'
              else (inl e, issued')
          end
      end
  end.

(** Lines 35-72.  The result is what the function returns or raises,
    together with the requests it issued, oldest first. *)
Definition search_commons_images (queries : list string) (limit thumb_size : Z)
    : (exn + list ImageResult.t) * list Request :=
  match queries_loop queries limit thumb_size [] [] with
  | (inl e, issued) => (inl e, issued)
  | (inr results, issued) => (inr (slice_to (values results) limit), issued)
  end.

End Aggregator.

(** ** Instances used in the examples *)

(** An instance of the builtin [int]: it agrees with [int] on the strings
    made of an optional sign and ASCII digits, and rejects every other
    string. *)
Module DecimalInt.

Definition digit (c : ascii) : option Z :=
  let n := N_of_ascii c in
  if ((48 <=? n) && (n <=? 57))%N then Some (Z.of_N (n - 48)) else None.

Fixpoint digits (acc : Z) (s : string) : option Z :=
  match s with
  | EmptyString => Some acc
  | String c rest =>
      match digit c with
      | Some d => digits (10 * acc + d) rest
      | None => None
      end
  end.

Definition unsigned (s : string) : option Z :=
  match s with
  | EmptyString => None
  | _ => digits 0 s
  end.

Definition parse (s : string) : option Z :=
  match s with
  | String "-"%char rest => option_map Z.opp (unsigned rest)
  | String "+"%char rest => unsigned rest
  | _ => unsigned s
  end.

End DecimalInt.

(** A service that answers its n-th request with the n-th outcome of a
    script, and with a network error once the script is used up. *)
Definition scripted (script : list Outcome) : Service :=
  fun issued _ => nth (List.length issued) script (inl URLError).

(** A page object with a title and a thumbnail. *)
Definition page_with_thumbnail (title src : string) (w h : Z) : json :=
  JDict [ ("title", JStr title);
          ("fullurl", JStr ("https://commons.wikimedia.org/wiki/" ++ title));
          ("thumbnail", JDict [("source", JStr src); ("width", JInt w); ("height", JInt h)]) ].

(** A page object without a thumbnail. *)
Definition page_without_thumbnail (title : string) : json :=
  JDict [ ("title", JStr title);
          ("fullurl", JStr ("https://commons.wikimedia.org/wiki/" ++ title)) ].

(** A response whose [query.pages] is the given dict. *)
Definition response (pages : list (string * json)) : Outcome :=
  inr (JDict [ ("batchcomplete", JStr ""); ("query", JDict [("pages", JDict pages)]) ]).

(** ** Vocabulary of the properties *)

(** The URL of line 51 as a text: empty when line 51 raises, in which case
    no request is issued for the query. *)
Definition url_text (q : string) (limit thumb_size : Z) : string :=
  match url q limit thumb_size with
  | inr u => u
  | inl _ => EmptyString
  end.

(** The request that line 53 issues for query [q]. *)
Definition request_for (limit thumb_size : Z) (q : string) : Request :=
  mkRequest (url_text q limit thumb_size)
    [("User-Agent", "Flames.Blue Omsk Gallery/1.0")] 10.

(** Line 51 raises for none of the queries: no query holds a lone
    surrogate, and [min(limit, 50)] and [thumb_size] have no more digits
    than [str] converts. *)
Definition url_built (limit thumb_size : Z) (q : string) : bool :=
  match url q limit thumb_size with
  | inr _ => true
  | inl _ => false
  end.

Definition urls_built (queries : list string) (limit thumb_size : Z) : bool :=
  forallb (url_built limit thumb_size) queries.

(** The outcomes of a sequence of requests issued one after the other, after
    the requests [issued]. *)
Fixpoint answers (service : Service) (issued : list Request) (requests : list Request)
    : list Outcome :=
  match requests with
  | [] => []
  | r :: rest => service issued r :: answers service (issued ++ [r])%list rest
  end.

(** The outcomes of the requests for [queries], in the order of the queries. *)
Definition outcomes (service : Service) (queries : list string) (limit thumb_size : Z)
    : list Outcome :=
  answers service [] (map (request_for limit thumb_size) queries).

(** An outcome that lets the loop go on: a response, or an exception that
    [except Exception] catches. *)
Definition caught (o : Outcome) : bool :=
  match o with
  | inl e => is_Exception e
  | inr _ => true
  end.

(** A request that failed with an exception that [except Exception] catches. *)
Definition failed (o : Outcome) : bool :=
  match o with
  | inl e => is_Exception e
  | inr _ => false
  end.

(** "For every query, fetching or parsing raises": the request of every
    query is issued, and fails. *)
Definition every_call_fails (service : Service) (queries : list string)
    (limit thumb_size : Z) : bool :=
  urls_built queries limit thumb_size
  && forallb failed (outcomes service queries limit thumb_size).

(** The assignments [results[key] = value] that the loop over the pages
    performs, in order: those of the pages before the first page that raises. *)
Fixpoint page_writes (int_of_str : string -> option Z) (items : list (string * json))
    : list (Z * ImageResult.t) :=
  match items with
  | [] => []
  | (pid, page) :: rest =>
      match page_entry int_of_str pid page with
      | inl _ => []
      | inr None => page_writes int_of_str rest
      | inr (Some kv) => kv :: page_writes int_of_str rest
      end
  end.

(** The assignments that the body of the [try] performs on an outcome: none
    when the request failed or the response has no dict of pages. *)
Definition stored (int_of_str : string -> option Z) (o : Outcome)
    : list (Z * ImageResult.t) :=
  match data <- o ;; pages_of data with
  | inl _ => []
  | inr page_items => page_writes int_of_str page_items
  end.

(** All the assignments of a run, in order. *)
Definition writes (int_of_str : string -> option Z) (service : Service)
    (queries : list string) (limit thumb_size : Z) : list (Z * ImageResult.t) :=
  List.concat (map (stored int_of_str) (outcomes service queries limit thumb_size)).

(** A sequence of assignments applied to a dict. *)
Definition replay (ws : list (Z * ImageResult.t)) (results : Results) : Results :=
  fold_left (fun d kv => setitem d (fst kv) (snd kv)) ws results.

(** [results.get(key)] *)
Fixpoint getitem (key : Z) (results : Results) : option ImageResult.t :=
  match results with
  | [] => None
  | (k, v) :: rest => if k =? key then Some v else getitem key rest
  end.

(** The value of the first, and of the last, assignment to [key]. *)
Definition first_write (key : Z) (ws : list (Z * ImageResult.t)) : option ImageResult.t :=
  getitem key ws.

Fixpoint last_write (key : Z) (ws : list (Z * ImageResult.t)) : option ImageResult.t :=
  match ws with
  | [] => None
  | (k, v) :: rest =>
      match last_write key rest with
      | Some v' => Some v'
      | None => if k =? key then Some v else None
      end
  end.

(** The keys of a sequence in the order in which each is first met, those of
    [seen] left out. *)
Fixpoint first_seen (seen keys : list Z) : list Z :=
  match keys with
  | [] => []
  | k :: rest =>
      if existsb (Z.eqb k) seen
      then first_seen seen rest
      else k :: first_seen (seen ++ [k])%list rest
  end.

(** Every value stored under a key carries that key as its [id]. *)
Definition keyed (d : list (Z * ImageResult.t)) : Prop :=
  Forall (fun kv => ImageResult.id (snd kv) = fst kv) d.

(** First-write-wins, as the data model words it: each returned result is
    the value of the first assignment to its identifier. *)
Definition first_write_wins (int_of_str : string -> option Z) (service : Service)
    (queries : list string) (limit thumb_size : Z) : Prop :=
  forall out r,
    fst (search_commons_images int_of_str service queries limit thumb_size) = inr out ->
    In r out ->
    first_write (ImageResult.id r) (writes int_of_str service queries limit thumb_size)
    = Some r.

(** "On any failure for this query, discard this query's contribution": a
    body of the [try] that raises leaves the dict as it found it. *)
Definition failure_discards (int_of_str : string -> option Z) (service : Service)
    (u : string) (results : Results) (issued : list Request) : Prop :=
  forall results' e issued',
    try_body int_of_str service u results issued = (results', Some e, issued') ->
    results' = results.

(** ** Scenarios *)

Definition page_A1 : json := page_with_thumbnail "A1" "https://upload.wikimedia.org/a1.jpg" 800 600.
Definition page_B1 : json := page_with_thumbnail "B1" "https://upload.wikimedia.org/b1.jpg" 640 480.
Definition page_B2 : json := page_with_thumbnail "B2" "https://upload.wikimedia.org/b2.jpg" 800 533.

(** The image results that the three pages give under the ids 1, 1 and 2. *)
Definition result_A1 : ImageResult.t :=
  ImageResult.mk 1 (JStr "A1") (JStr "https://commons.wikimedia.org/wiki/A1")
    (JStr "https://upload.wikimedia.org/a1.jpg") (JInt 800) (JInt 600)
    "Wikimedia Commons" "See source page".
Definition result_B1 : ImageResult.t :=
  ImageResult.mk 1 (JStr "B1") (JStr "https://commons.wikimedia.org/wiki/B1")
    (JStr "https://upload.wikimedia.org/b1.jpg") (JInt 640) (JInt 480)
    "Wikimedia Commons" "See source page".
Definition result_B2 : ImageResult.t :=
  ImageResult.mk 2 (JStr "B2") (JStr "https://commons.wikimedia.org/wiki/B2")
    (JStr "https://upload.wikimedia.org/b2.jpg") (JInt 800) (JInt 533)
    "Wikimedia Commons" "See source page".

(** Query "A" yields page 1; query "B" yields page 1 again and page 2. *)
Definition duplicate_service : Service :=
  scripted [ response [("1", page_A1)];
             response [("1", page_B1); ("2", page_B2)] ].

(** Query "A" times out; query "B" yields page 2. *)
Definition timeout_service : Service :=
  scripted [ inl TimeoutError; response [("2", page_B2)] ].

(** The response to query "A" is malformed: the thumbnail of its second page
    is a string, not an object.  Query "B" yields page 2. *)
Definition malformed_service : Service :=
  scripted [ response [ ("1", page_A1);
                        ("3", JDict [ ("title", JStr "A3");
                                      ("thumbnail", JStr "https://upload.wikimedia.org/a3.jpg") ]) ];
             response [("2", page_B2)] ].

(** Query "A" yields two distinct pages with thumbnails. *)
Definition two_pages_service : Service :=
  scripted [ response [("1", page_A1); ("2", page_B2)] ].

(** Every request fails. *)
Definition failing_service : Service :=
  scripted [ inl URLError; inl JSONDecodeError ].

(** Query "A" yields a page without a thumbnail and page 2. *)
Definition mixed_service : Service :=
  scripted [ response [("1", page_without_thumbnail "A1"); ("2", page_B2)] ].

(** ** [omsk_photos] (main.py, lines 75-89) *)

(** Lines 78-87. *)
Definition omsk_queries : list string :=
  [ "Омск ночь";
    "Омск зима";
    "Lyubinsky Avenue Omsk night";
    "Assumption Cathedral Omsk night";
    "Omsk Irtysh embankment night";
    "Omsk Drama Theater night";
    "Buchholz Square Omsk night";
    "Omsk fortress night" ].

(** Lines 88-89: the dict [{"items": items}], or the exception that
    [search_commons_images] lets through, and the requests issued. *)
Definition omsk_photos (int_of_str : string -> option Z) (service : Service)
    : (exn + list (string * list ImageResult.t)) * list Request :=
  match search_commons_images int_of_str service omsk_queries 32 1024 with
  | (inl e, issued) => (inl e, issued)
  | (inr found, issued) => (inr [("items", found)], issued)
  end.

(** ** Decoding of a quoted string *)

(** The inverse of [Urllib.quote_plus] ([urllib.parse.unquote_plus] on
    upper-case escapes), used to show that quoting loses nothing. *)
Module Unquote.

Definition hex_value (c : ascii) : option N :=
  let n := N_of_ascii c in
  if ((48 <=? n) && (n <=? 57))%N then Some (n - 48)%N
  else if ((65 <=? n) && (n <=? 70))%N then Some (n - 55)%N
  else None.

Fixpoint unquote_plus (s : string) : string :=
  match s with
  | EmptyString => EmptyString
  | String c s' =>
      if Ascii.eqb c "+"%char then String " "%char (unquote_plus s')
      else if Ascii.eqb c "%"%char then
        match s' with
        | String h (String l rest) =>
            match hex_value h, hex_value l with
            | Some a, Some b => String (ascii_of_N (16 * a + b)) (unquote_plus rest)
            | _, _ => String c (unquote_plus s')
            end
        | _ => String c (unquote_plus s')
        end
      else String c (unquote_plus s')
  end.

End Unquote.

(** A byte that may stand in the URL of a request: a byte that [quote]
    never escapes, or one of [+ % : / ? & =]. *)
Definition url_byte (c : ascii) : bool :=
  Urllib.always_safe c
  || existsb (Ascii.eqb c) (list_ascii_of_string "+%:/?&=").

(** A page whose handling raises. *)
Definition page_raises (int_of_str : string -> option Z) (item : string * json) : bool :=
  match page_entry int_of_str (fst item) (snd item) with
  | inl _ => true
  | inr _ => false
  end.

(** [x.get(key)] on the items of a dict, as a value: [None] is [JNull]. *)
Definition field (key : string) (d : list (string * json)) : json :=
  match lookup key d with
  | Some v => v
  | None => JNull
  end.

(** ** [test_database] (main.py, lines 139-181) *)

Module Probe.

(** A raised exception: its class and [str(e)].  [ImportError] stands for
    the class and its subclasses. *)
Inductive error_class : Type :=
| ImportError
| Other (e : exn).

Record Error : Type := mkError {
  class : error_class;
  message : string
}.

(** [isinstance(e, ImportError)] and [isinstance(e, Exception)]. *)
Definition is_ImportError (e : Error) : bool :=
  match class e with
  | ImportError => true
  | Other _ => false
  end.

Definition is_Exception (e : Error) : bool :=
  match class e with
  | ImportError => true
  | Other c => Py.is_Exception c
  end.

Definition is_AttributeError (e : Error) : bool :=
  match class e with
  | Other AttributeError => true
  | _ => false
  end.

(** A byte that continues a UTF-8 character. *)
Definition is_continuation (c : ascii) : bool := (N_of_ascii c / 64 =? 2)%N.

(** [len(s)] and [s[:n]] on a [str] held as UTF-8 bytes: characters are
    counted, not bytes. *)
Fixpoint char_length (s : string) : nat :=
  match s with
  | EmptyString => 0
  | String c rest =>
      if is_continuation c then char_length rest else S (char_length rest)
  end.

Fixpoint take_chars (n : nat) (s : string) : string :=
  match s with
  | EmptyString => EmptyString
  | String c rest =>
      if is_continuation c then String c (take_chars n rest)
      else match n with
           | O => EmptyString
           | S n' => String c (take_chars n' rest)
           end
  end.

Section Database.

(** The Python objects that the attribute [name] of [db] may hold. *)
Variable object : Type.

(** What the function uses of [db]: the attribute [name] (absent, raising
    or holding a value, the same at each access) and the outcome of
    [list_collection_names()], a list of [str]. *)
Record Database : Type := mkDatabase {
  name : option (Error + object);
  list_collection_names : Error + list string
}.

(** A value of the response dict. *)
Inductive value : Type :=
| VNone
| VStr (s : string)
| VObject (o : object).

(** The response dict, lines 142-149. *)
Record Response : Type := mkResponse {
  backend : string;
  database : string;
  database_url : value;
  database_name : value;
  connection_status : string;
  collections : list string
}.

Definition set_database (s : string) (r : Response) : Response :=
  mkResponse (backend r) s (database_url r) (database_name r)
    (connection_status r) (collections r).

Definition set_database_url (v : value) (r : Response) : Response :=
  mkResponse (backend r) (database r) v (database_name r)
    (connection_status r) (collections r).

Definition set_database_name (v : value) (r : Response) : Response :=
  mkResponse (backend r) (database r) (database_url r) v
    (connection_status r) (collections r).

Definition set_connection_status (s : string) (r : Response) : Response :=
  mkResponse (backend r) (database r) (database_url r) (database_name r)
    s (collections r).

Definition set_collections (l : list string) (r : Response) : Response :=
  mkResponse (backend r) (database r) (database_url r) (database_name r)
    (connection_status r) l.

(** Lines 142-149. *)
Definition initial : Response :=
  mkResponse "✅ Running" "❌ Not Available" VNone VNone "Not Connected" [].

(** [hasattr(db, 'name')]: false when the access raises [AttributeError];
    any other exception of the access gets out of [hasattr]. *)
Definition hasattr_name (db : Database) : Error + bool :=
  match name db with
  | None => inr false
  | Some (inl e) => if is_AttributeError e then inr false else inl e
  | Some (inr _) => inr true
  end.

(** [db.name] *)
Definition getattr_name (db : Database) : Error + value :=
  match name db with
  | None => inl (mkError (Other AttributeError) "'Database' object has no attribute 'name'")
  | Some (inl e) => inl e
  | Some (inr o) => inr (VObject o)
  end.

(** Line 158, right-hand side. *)
Definition name_or_connected (db : Database) : Error + value :=
  match hasattr_name db with
  | inl e => inl e
  | inr true => getattr_name db
  | inr false => inr (VStr "✅ Connected")
  end.

(** Lines 162-167: the inner [try].  The response as the statement leaves
    it, and the exception that gets out of it, if one does. *)
Definition list_collections (db : Database) (r : Response) : Response * option Error :=
  match list_collection_names db with
  | inr names =>
      (set_database "✅ Connected & Working" (set_collections (firstn 10 names) r), None)
  | inl e =>
      if is_Exception e
      then (set_database ("⚠️  Connected but Error: " ++ take_chars 50 (message e)) r, None)
      else (r, Some e)
  end.

(** Lines 152-169: the body of the outer [try]. *)
Definition probe (import_db : Error + option Database) (r : Response)
    : Response * option Error :=
  match import_db with
  | inl e => (r, Some e)
  | inr None => (set_database "⚠️  Available but not initialized" r, None)
  | inr (Some db) =>
      let r1 := set_database_url (VStr "✅ Configured") (set_database "✅ Available" r) in
      match name_or_connected db with
      | inl e => (r1, Some e)
      | inr v =>
          list_collections db (set_connection_status "Connected" (set_database_name v r1))
      end
  end.

(** Lines 151-174: the outer [try] with its two handlers. *)
Definition probe_handled (import_db : Error + option Database) (r : Response)
    : Error + Response :=
  match probe import_db r with
  | (r', None) => inr r'
  | (r', Some e) =>
      if is_ImportError e
      then inr (set_database "❌ Database module not found (run enable-database first)" r')
      else if is_Exception e
      then inr (set_database ("❌ Error: " ++ take_chars 50 (message e)) r')
      else inl e
  end.

(** The truth value of [os.getenv(key)]: set and not empty. *)
Definition env_set (getenv : string -> option string) (key : string) : bool :=
  match getenv key with
  | Some EmptyString => false
  | Some _ => true
  | None => false
  end.

(** Lines 140-181.  [import_db] is the outcome of [from database import db]:
    an exception, [None] or a database. *)
Definition test_database (import_db : Error + option Database)
    (getenv : string -> option string) : Error + Response :=
  match probe_handled import_db initial with
  | inl e => inl e
  | inr r =>
      let r1 := set_database_url
                  (VStr (if env_set getenv "DATABASE_URL" then "✅ Set" else "❌ Not Set")) r in
      inr (set_database_name
             (VStr (if env_set getenv "DATABASE_NAME" then "✅ Set" else "❌ Not Set")) r1)
  end.

(** No exception of the import, of the access to [name] or of the listing
    is outside [Exception]. *)
Definition no_interrupt (import_db : Error + option Database) : bool :=
  match import_db with
  | inl e => is_Exception e
  | inr None => true
  | inr (Some db) =>
      match name_or_connected db with
      | inl e => is_Exception e
      | inr _ =>
          match list_collection_names db with
          | inl e => is_Exception e
          | inr _ => true
          end
      end
  end.

End Database.

End Probe.

(** ** Further scenarios *)

(** Query "A" yields page 1; the request of query "B" is interrupted. *)
Definition interrupted_service : Service :=
  scripted [ response [("1", page_A1)]; inl KeyboardInterrupt; response [("2", page_B2)] ].

(** A search without hits: the response has no key "query". *)
Definition no_hits : Outcome := inr (JDict [("batchcomplete", JStr "")]).

(** The page numbered [n] as the query [found_by] finds it. *)
Definition numbered_page (found_by : string) (n : nat) : string * json :=
  (Py.decimal (Z.of_nat n),
   page_with_thumbnail (found_by ++ "-" ++ Py.decimal (Z.of_nat n))
     "https://upload.wikimedia.org/n.jpg" 1024 768).

(** The first query finds the pages 1 to 40, the second the pages 31 to 50,
    every other query nothing: 60 pages, 50 identifiers. *)
Definition crowded_service : Service :=
  scripted [ response (map (numbered_page "first") (seq 1 40));
             response (map (numbered_page "second") (seq 31 20));
             no_hits; no_hits; no_hits;
             no_hits; no_hits; no_hits ].

(** The items that [omsk_photos] returns on [crowded_service]. *)
Definition crowded_items : list ImageResult.t :=
  Eval vm_compute in
    match fst (omsk_photos DecimalInt.parse crowded_service) with
    | inr [(_, found)] => found
    | _ => []
    end.


(** A database with twelve collections. *)
Definition twelve_collections : list string :=
  [ "c01"; "c02"; "c03"; "c04"; "c05"; "c06"; "c07"; "c08"; "c09"; "c10"; "c11"; "c12" ].

Definition working_db : Probe.Database string :=
  Probe.mkDatabase string (Some (inr "omsk")) (inr twelve_collections).

(** A database without an attribute [name], with the same collections. *)
Definition nameless_db : Probe.Database string :=
  Probe.mkDatabase string None (inr twelve_collections).

(** A database whose listing times out, with a message of 64 characters. *)
Definition unreachable_db : Probe.Database string :=
  Probe.mkDatabase string (Some (inr "omsk"))
    (inl (Probe.mkError (Probe.Other TimeoutError)
            "localhost:27017: [Errno 111] Connection refused, Timeout: 30.0s.")).

(** An environment with [DATABASE_URL] set and [DATABASE_NAME] empty. *)
Definition sample_env (key : string) : option string :=
  if String.eqb key "DATABASE_URL" then Some "mongodb://localhost:27017"
  else if String.eqb key "DATABASE_NAME" then Some ""
  else None.

(** The responses of the probe on the two databases, in [sample_env]. *)
Definition working_response : Probe.Response string :=
  Probe.mkResponse string "✅ Running" "✅ Connected & Working"
    (Probe.VStr string "✅ Set") (Probe.VStr string "❌ Not Set") "Connected"
    [ "c01"; "c02"; "c03"; "c04"; "c05"; "c06"; "c07"; "c08"; "c09"; "c10" ].

Definition unreachable_response : Probe.Response string :=
  Probe.mkResponse string "✅ Running"
    "⚠️  Connected but Error: localhost:27017: [Errno 111] Connection refused, T"
    (Probe.VStr string "✅ Set") (Probe.VStr string "❌ Not Set") "Connected" [].

(** * Properties *)

Ltac split_match :=
  repeat match goal with
         | H : context [match ?x with _ => _ end] |- _ => destruct x eqn:?; simpl in H
         end.

Ltac injections :=
  repeat match goal with
         | H : inl _ = inl _ |- _ => injection H as H; try subst
         | H : inr _ = inr _ |- _ => injection H as H; try subst
         | H : Some _ = Some _ |- _ => injection H as H; try subst
         | H : (_, _) = (_, _) |- _ => injection H as ? ?; try subst
         end.


(** ** Insertion-ordered dicts *)

Lemma getitem_setitem (d : Results) (k key : Z) (v : ImageResult.t) :
  getitem key (setitem d k v) = if k =? key then Some v else getitem key d.
Proof.
  induction d as [|[k' v'] d IH]; simpl.
  - reflexivity.
  - destruct (k' =? k) eqn:E; simpl.
    + apply Z.eqb_eq in E; subst k'. destruct (k =? key); reflexivity.
    + rewrite IH. destruct (k' =? key) eqn:E'; [|reflexivity].
      apply Z.eqb_eq in E'; subst k'. rewrite Z.eqb_sym, E. reflexivity.
Qed.

Lemma setitem_keys (d : Results) (k : Z) (v : ImageResult.t) :
  map fst (setitem d k v) =
  if existsb (Z.eqb k) (map fst d) then map fst d else (map fst d ++ [k])%list.
Proof.
  induction d as [|[k' v'] d IH]; simpl.
  - reflexivity.
  - rewrite (Z.eqb_sym k k'). destruct (k' =? k) eqn:E; simpl.
    + reflexivity.
    + rewrite IH. destruct (existsb (Z.eqb k) (map fst d)); reflexivity.
Qed.

Lemma replay_getitem (ws : list (Z * ImageResult.t)) (d : Results) (key : Z) :
  getitem key (replay ws d) =
  match last_write key ws with
  | Some v => Some v
  | None => getitem key d
  end.
Proof.
  revert d. induction ws as [|[k v] ws IH]; intros d; simpl.
  - reflexivity.
  - unfold replay in IH. rewrite IH. simpl. rewrite getitem_setitem.
    destruct (last_write key ws); [reflexivity|].
    destruct (k =? key); reflexivity.
Qed.

Lemma replay_keys (ws : list (Z * ImageResult.t)) (d : Results) :
  map fst (replay ws d) = (map fst d ++ first_seen (map fst d) (map fst ws))%list.
Proof.
  revert d. induction ws as [|[k v] ws IH]; intros d; simpl.
  - rewrite app_nil_r. reflexivity.
  - unfold replay in IH. rewrite IH. simpl. rewrite setitem_keys.
    destruct (existsb (Z.eqb k) (map fst d)).
    + reflexivity.
    + rewrite <- app_assoc. reflexivity.
Qed.

Lemma existsb_eqb_In (k : Z) (l : list Z) :
  existsb (Z.eqb k) l = true <-> In k l.
Proof.
  rewrite existsb_exists. split.
  - intros [x [Hin E]]. apply Z.eqb_eq in E. subst x. exact Hin.
  - intros Hin. exists k. split; [exact Hin | apply Z.eqb_refl].
Qed.

Lemma setitem_NoDup (d : Results) (k : Z) (v : ImageResult.t) :
  NoDup (map fst d) -> NoDup (map fst (setitem d k v)).
Proof.
  intros H. rewrite setitem_keys.
  destruct (existsb (Z.eqb k) (map fst d)) eqn:E; [exact H|].
  apply NoDup_app; [exact H | repeat constructor; intros [] | ].
  intros x Hx [Hk|[]]. subst x.
  apply existsb_eqb_In in Hx. congruence.
Qed.

Lemma replay_NoDup (ws : list (Z * ImageResult.t)) (d : Results) :
  NoDup (map fst d) -> NoDup (map fst (replay ws d)).
Proof.
  revert d. induction ws as [|[k v] ws IH]; intros d H; simpl.
  - exact H.
  - apply IH. apply setitem_NoDup. exact H.
Qed.

Lemma getitem_In (d : Results) (k : Z) (v : ImageResult.t) :
  NoDup (map fst d) -> In (k, v) d -> getitem k d = Some v.
Proof.
  induction d as [|[k' v'] d IH]; simpl; intros Hnd Hin.
  - destruct Hin.
  - inversion Hnd as [|? ? Hk Hnd']; subst.
    destruct Hin as [E|Hin].
    + inversion E; subst. rewrite Z.eqb_refl. reflexivity.
    + destruct (k' =? k) eqn:E.
      * apply Z.eqb_eq in E; subst k'. exfalso. apply Hk.
        change k with (fst (k, v)). apply in_map. exact Hin.
      * apply IH; assumption.
Qed.

Lemma setitem_keyed (d : Results) (k : Z) (v : ImageResult.t) :
  keyed d -> ImageResult.id v = k -> keyed (setitem d k v).
Proof.
  unfold keyed. intros H Hv. induction d as [|[k' v'] d IH]; simpl.
  - constructor; [exact Hv | constructor].
  - inversion H as [|x l Hx Hl]. destruct (k' =? k) eqn:E.
    + apply Z.eqb_eq in E. rewrite E. constructor; [exact Hv | assumption].
    + constructor; [assumption | apply IH; assumption].
Qed.

Lemma replay_keyed (ws : list (Z * ImageResult.t)) (d : Results) :
  keyed ws -> keyed d -> keyed (replay ws d).
Proof.
  revert d. induction ws as [|[k v] ws IH]; intros d Hws Hd; simpl.
  - exact Hd.
  - inversion Hws as [|x l Hx Hl]. apply IH; [assumption|].
    apply setitem_keyed; assumption.
Qed.

Lemma keyed_ids (d : Results) :
  keyed d -> map ImageResult.id (values d) = map fst d.
Proof.
  unfold keyed, values. induction 1 as [|[k v] d Hkv _ IH]; simpl.
  - reflexivity.
  - simpl in Hkv. rewrite Hkv, IH. reflexivity.
Qed.

Lemma keyed_In (d : Results) (r : ImageResult.t) :
  keyed d -> In r (values d) -> In (ImageResult.id r, r) d.
Proof.
  unfold keyed, values. intros H Hin. apply in_map_iff in Hin.
  destruct Hin as [[k v] [E Hin]]. simpl in E; subst v.
  rewrite Forall_forall in H. specialize (H _ Hin). simpl in H.
  rewrite H. exact Hin.
Qed.

(** ** The loops *)

Section Loops.

Variable int_of_str : string -> option Z.
Variable service : Service.

(** Whatever the handling of a page raises is caught by [except Exception]. *)
Lemma page_entry_raises (pid : string) (page : json) (e : exn) :
  page_entry int_of_str pid page = inl e -> is_Exception e = true.
Proof.
  unfold page_entry, image_result, int, get, contains, bind.
  intros H. split_match; try discriminate; injections; reflexivity.
Qed.

(** A page is stored only when it is a dict with a key "thumbnail"; it is
    stored under [int(pid)], which is also the [id] of the value. *)
Lemma page_entry_stores (pid : string) (page : json) (k : Z) (v : ImageResult.t) :
  page_entry int_of_str pid page = inr (Some (k, v)) ->
  ImageResult.id v = k /\ int_of_str pid = Some k /\
  exists d, page = JDict d /\ lookup "thumbnail" d <> None.
Proof.
  unfold page_entry, image_result, int, get, contains, bind.
  intros H. split_match; try discriminate; injections; simpl;
    (split; [reflexivity | split; [reflexivity | eexists; split; [reflexivity | congruence]]]).
Qed.

Lemma page_writes_keyed (page_items : list (string * json)) :
  keyed (page_writes int_of_str page_items).
Proof.
  unfold keyed. induction page_items as [|[pid page] rest IH]; simpl.
  - constructor.
  - destruct (page_entry int_of_str pid page) as [e|[[k v]|]] eqn:E.
    + constructor.
    + constructor; [|exact IH]. apply page_entry_stores in E. apply E.
    + exact IH.
Qed.

(** The loop over the pages performs the assignments of [page_writes], and
    ends without an exception or with one that [except Exception] catches. *)
Lemma pages_loop_replay (page_items : list (string * json)) (results : Results) :
  fst (pages_loop int_of_str page_items results)
  = replay (page_writes int_of_str page_items) results.
Proof.
  revert results. induction page_items as [|[pid page] rest IH]; intros results; simpl.
  - reflexivity.
  - destruct (page_entry int_of_str pid page) as [e|[[k v]|]]; simpl.
    + reflexivity.
    + apply IH.
    + apply IH.
Qed.

Lemma pages_loop_raises (page_items : list (string * json)) (results : Results) (e : exn) :
  snd (pages_loop int_of_str page_items results) = Some e -> is_Exception e = true.
Proof.
  revert results. induction page_items as [|[pid page] rest IH]; intros results; simpl.
  - discriminate.
  - destruct (page_entry int_of_str pid page) as [e'|[[k v]|]] eqn:E; simpl.
    + intros H. inversion H; subst. eapply page_entry_raises. exact E.
    + apply IH.
    + apply IH.
Qed.

Lemma pages_of_raises (data : json) (e : exn) :
  pages_of data = inl e -> is_Exception e = true.
Proof.
  unfold pages_of, get, items, bind.
  intros H. split_match; try discriminate; injections; reflexivity.
Qed.

Lemma stored_keyed (o : Outcome) : keyed (stored int_of_str o).
Proof.
  unfold stored. destruct (data <- o ;; pages_of data).
  - constructor.
  - apply page_writes_keyed.
Qed.

(** The body of the [try] issues one request, performs the assignments of
    [stored] on its outcome, and raises nothing that escapes the handler
    unless the request itself does. *)
Lemma try_body_spec (u : string) (results : Results) (issued : list Request) :
  let req := mkRequest u [("User-Agent", "Flames.Blue Omsk Gallery/1.0")] 10 in
  exists raised,
    try_body int_of_str service u results issued
    = (replay (stored int_of_str (service issued req)) results, raised, (issued ++ [req])%list)
    /\ (caught (service issued req) = true ->
        forall e, raised = Some e -> is_Exception e = true)
    /\ (caught (service issued req) = false ->
        exists e, raised = Some e /\ is_Exception e = false).
Proof.
  intros req. unfold try_body, _fetch_json, stored. fold req.
  destruct (service issued req) as [e|data] eqn:Eo; simpl.
  - exists (Some e). split; [reflexivity|]. split.
    + intros Hc e' He'. inversion He'; subst. exact Hc.
    + intros Hc. exists e. split; [reflexivity | exact Hc].
  - destruct (pages_of data) as [e|page_items] eqn:Ep.
    + exists (Some e). split; [reflexivity|]. split.
      * intros _ e' He'. inversion He'; subst. eapply pages_of_raises. exact Ep.
      * discriminate.
    + pose proof (pages_loop_replay page_items results) as Hr.
      pose proof (pages_loop_raises page_items results) as He.
      destruct (pages_loop int_of_str page_items results) as [results' raised].
      simpl in Hr, He. subst results'.
      exists raised. split; [reflexivity|]. split.
      * intros _. exact He.
      * discriminate.
Qed.

Lemma replay_app (ws1 ws2 : list (Z * ImageResult.t)) (results : Results) :
  replay (ws1 ++ ws2)%list results = replay ws2 (replay ws1 results).
Proof. unfold replay. apply fold_left_app. Qed.

Lemma url_built_text (limit thumb_size : Z) (q : string) :
  url_built limit thumb_size q = true ->
  url q limit thumb_size = inr (url_text q limit thumb_size).
Proof.
  unfold url_built, url_text. destruct (url q limit thumb_size); [discriminate|].
  reflexivity.
Qed.

(** When line 51 raises for no query and no request raises past the
    handler, the loop over the queries issues the request of every query, in
    order, and performs the assignments of every outcome. *)
Lemma queries_loop_caught (limit thumb_size : Z) (queries : list string)
    (results : Results) (issued : list Request) :
  let requests := map (request_for limit thumb_size) queries in
  urls_built queries limit thumb_size = true ->
  forallb caught (answers service issued requests) = true ->
  queries_loop int_of_str service queries limit thumb_size results issued
  = (inr (replay (List.concat (map (stored int_of_str) (answers service issued requests)))
            results),
     (issued ++ requests)%list).
Proof.
  revert results issued.
  induction queries as [|q rest IH]; intros results issued; simpl.
  - intros _ _. rewrite app_nil_r. reflexivity.
  - intros Hb H. apply andb_true_iff in Hb. destruct Hb as [Hbq Hbrest].
    apply andb_true_iff in H. destruct H as [Hq Hrest].
    rewrite (url_built_text _ _ _ Hbq).
    destruct (try_body_spec (url_text q limit thumb_size) results issued)
      as [raised [Hbody [Hcaught _]]].
    fold (request_for limit thumb_size q) in Hbody, Hcaught.
    rewrite Hbody. specialize (Hcaught Hq).
    rewrite replay_app.
    replace (issued ++ request_for limit thumb_size q
                         :: map (request_for limit thumb_size) rest)%list
      with ((issued ++ [request_for limit thumb_size q])
              ++ map (request_for limit thumb_size) rest)%list
      by (rewrite <- app_assoc; reflexivity).
    destruct raised as [e|].
    + rewrite (Hcaught e eq_refl). apply IH; assumption.
    + apply IH; assumption.
Qed.

(** When the loop over the queries ends without raising, line 51 raised for
    no query and no request raised past the handler. *)
Lemma queries_loop_returns (limit thumb_size : Z) (queries : list string)
    (results results' : Results) (issued issued' : list Request) :
  queries_loop int_of_str service queries limit thumb_size results issued
  = (inr results', issued') ->
  urls_built queries limit thumb_size = true
  /\ forallb caught (answers service issued (map (request_for limit thumb_size) queries))
     = true.
Proof.
  revert results issued.
  induction queries as [|q rest IH]; intros results issued; simpl.
  - intros _. split; reflexivity.
  - destruct (url_built limit thumb_size q) eqn:Hbq.
    2:{ unfold url_built in Hbq. destruct (url q limit thumb_size); discriminate. }
    rewrite (url_built_text _ _ _ Hbq).
    destruct (try_body_spec (url_text q limit thumb_size) results issued)
      as [raised [Hbody [_ Hescapes]]].
    fold (request_for limit thumb_size q) in Hbody, Hescapes.
    rewrite Hbody.
    destruct (caught (service issued (request_for limit thumb_size q))) eqn:Hq; simpl.
    + destruct raised as [e|]; [destruct (is_Exception e)|]; try discriminate; apply IH.
    + destruct (Hescapes eq_refl) as [e [He Hne]]. subst raised. rewrite Hne.
      discriminate.
Qed.

(** The requests issued are those of the first queries, in order, whether
    the loop ends normally or not. *)
Lemma queries_loop_issued (limit thumb_size : Z) (queries : list string)
    (results : Results) (issued : list Request) :
  exists n,
    snd (queries_loop int_of_str service queries limit thumb_size results issued)
    = (issued ++ map (request_for limit thumb_size) (firstn n queries))%list
    /\ urls_built (firstn n queries) limit thumb_size = true.
Proof.
  revert results issued.
  induction queries as [|q rest IH]; intros results issued; simpl.
  - exists 0%nat. simpl. rewrite app_nil_r. split; reflexivity.
  - destruct (url_built limit thumb_size q) eqn:Hbq.
    2:{ unfold url_built in Hbq. destruct (url q limit thumb_size); [|discriminate].
        exists 0%nat. simpl. rewrite app_nil_r. split; reflexivity. }
    rewrite (url_built_text _ _ _ Hbq).
    destruct (try_body_spec (url_text q limit thumb_size) results issued)
      as [raised [Hbody _]].
    fold (request_for limit thumb_size q) in Hbody. rewrite Hbody.
    set (results1 := replay _ results).
    assert (Hnext : exists n,
      snd (queries_loop int_of_str service rest limit thumb_size results1
             (issued ++ [request_for limit thumb_size q])%list)
      = (issued ++ map (request_for limit thumb_size) (firstn n (q :: rest)))%list
      /\ urls_built (firstn n (q :: rest)) limit thumb_size = true).
    { destruct (IH results1 (issued ++ [request_for limit thumb_size q])%list)
        as [n [Hn Hb]].
      exists (S n). rewrite Hn. simpl. rewrite <- app_assoc. rewrite Hbq, Hb.
      split; reflexivity. }
    destruct raised as [e|]; [destruct (is_Exception e)|]; try exact Hnext.
    exists 1%nat. simpl. rewrite Hbq. split; reflexivity.
Qed.

End Loops.

(** ** The function as a whole *)

Section Search.

Variable int_of_str : string -> option Z.
Variable service : Service.

(** When no request raises past the handler, the function returns, and what
    it returns and which requests it issued are determined as follows. *)
Lemma search_caught (queries : list string) (limit thumb_size : Z) :
  urls_built queries limit thumb_size = true ->
  forallb caught (outcomes service queries limit thumb_size) = true ->
  search_commons_images int_of_str service queries limit thumb_size
  = (inr (slice_to
            (values (replay (writes int_of_str service queries limit thumb_size) []))
            limit),
     map (request_for limit thumb_size) queries).
Proof.
  intros Hb H. unfold search_commons_images.
  rewrite (queries_loop_caught int_of_str service limit thumb_size queries [] [] Hb H).
  reflexivity.
Qed.

(** When the function returns, line 51 raised for no query and no request
    raised past the handler. *)
Lemma search_returns (queries : list string) (limit thumb_size : Z)
    (out : list ImageResult.t) :
  fst (search_commons_images int_of_str service queries limit thumb_size) = inr out ->
  urls_built queries limit thumb_size = true
  /\ forallb caught (outcomes service queries limit thumb_size) = true.
Proof.
  unfold search_commons_images.
  destruct (queries_loop int_of_str service queries limit thumb_size [] [])
    as [[e|results] issued] eqn:E; simpl.
  - discriminate.
  - intros _. eapply queries_loop_returns. exact E.
Qed.

(** What the function returns is a prefix of the values of the dict. *)
Lemma search_out (queries : list string) (limit thumb_size : Z)
    (out : list ImageResult.t) :
  fst (search_commons_images int_of_str service queries limit thumb_size) = inr out ->
  out = slice_to
          (values (replay (writes int_of_str service queries limit thumb_size) []))
          limit.
Proof.
  intros H. destruct (search_returns _ _ _ _ H) as [Hb Hc].
  rewrite (search_caught _ _ _ Hb Hc) in H. simpl in H. congruence.
Qed.

Lemma writes_keyed (queries : list string) (limit thumb_size : Z) :
  keyed (writes int_of_str service queries limit thumb_size).
Proof.
  unfold writes, keyed. apply Forall_concat. apply Forall_map.
  apply Forall_forall. intros o _. apply stored_keyed.
Qed.

Lemma slice_to_prefix {A : Type} (l : list A) (n : Z) :
  exists m, slice_to l n = firstn m l.
Proof. unfold slice_to. destruct (n <? 0); eexists; reflexivity. Qed.

Lemma In_slice_to {A : Type} (l : list A) (n : Z) (x : A) :
  In x (slice_to l n) -> In x l.
Proof.
  destruct (slice_to_prefix l n) as [m ->].
  rewrite <- (firstn_skipn m l) at 2. intros H. apply in_or_app. left. exact H.
Qed.

Lemma map_slice_to {A B : Type} (f : A -> B) (l : list A) (n : Z) :
  map f (slice_to l n) = slice_to (map f l) n.
Proof.
  unfold slice_to. rewrite length_map. destruct (n <? 0); symmetry; apply firstn_map.
Qed.

End Search.

(** ** Values of the final dict *)

Lemma setitem_In (d : Results) (k : Z) (v : ImageResult.t) (kv : Z * ImageResult.t) :
  In kv (setitem d k v) -> kv = (k, v) \/ In kv d.
Proof.
  induction d as [|[k' v'] d IH]; simpl.
  - intros [E|[]]. left. symmetry. exact E.
  - destruct (k' =? k) eqn:E; simpl.
    + apply Z.eqb_eq in E. subst k'. intros [H|H]; [left; symmetry; exact H | right; right; exact H].
    + intros [H|H]; [right; left; exact H|].
      destruct (IH H) as [H'|H']; [left; exact H' | right; right; exact H'].
Qed.

Lemma replay_In (ws : list (Z * ImageResult.t)) (d : Results) (kv : Z * ImageResult.t) :
  In kv (replay ws d) -> In kv ws \/ In kv d.
Proof.
  revert d. induction ws as [|[k v] ws IH]; intros d; simpl.
  - intros H. right. exact H.
  - intros H. destruct (IH _ H) as [H'|H'].
    + left. right. exact H'.
    + destruct (setitem_In _ _ _ _ H') as [E|H'']; [left; left; symmetry; exact E | right; exact H''].
Qed.

(** A value of the dict built from [ws] is the value of the last
    assignment to its identifier. *)
Lemma replay_values_last_write (ws : list (Z * ImageResult.t)) (r : ImageResult.t) :
  keyed ws -> In r (values (replay ws [])) -> last_write (ImageResult.id r) ws = Some r.
Proof.
  intros Hk Hin.
  assert (Hd : keyed (replay ws [])) by (apply replay_keyed; [exact Hk | constructor]).
  assert (Hn : NoDup (map fst (replay ws []))) by (apply replay_NoDup; constructor).
  pose proof (getitem_In _ _ _ Hn (keyed_In _ _ Hd Hin)) as Hg.
  rewrite replay_getitem in Hg. simpl in Hg.
  destruct (last_write (ImageResult.id r) ws); [exact Hg | discriminate].
Qed.

(** The identifiers of the dict built from [ws], in order, are the keys of
    [ws] in the order in which each is first met. *)
Lemma replay_ids (ws : list (Z * ImageResult.t)) :
  keyed ws -> map ImageResult.id (values (replay ws [])) = first_seen [] (map fst ws).
Proof.
  intros Hk. rewrite keyed_ids by (apply replay_keyed; [exact Hk | constructor]).
  rewrite replay_keys. reflexivity.
Qed.

Lemma NoDup_firstn {A : Type} (n : nat) (l : list A) : NoDup l -> NoDup (firstn n l).
Proof.
  intros H. rewrite <- (firstn_skipn n l) in H. eapply NoDup_app_remove_r. exact H.
Qed.

(** An assignment of a run comes from a page, a dict with a key
    "thumbnail", of a response that the service gave. *)
Lemma page_writes_origin (int_of_str : string -> option Z)
    (page_items : list (string * json)) (k : Z) (v : ImageResult.t) :
  In (k, v) (page_writes int_of_str page_items) ->
  exists pid page, In (pid, page) page_items
                   /\ page_entry int_of_str pid page = inr (Some (k, v)).
Proof.
  induction page_items as [|[pid page] rest IH]; simpl.
  - intros [].
  - destruct (page_entry int_of_str pid page) as [e|[kv|]] eqn:E.
    + intros [].
    + intros [H|H].
      * subst kv. exists pid, page. split; [left; reflexivity | exact E].
      * destruct (IH H) as [pid' [page' [Hin He]]].
        exists pid', page'. split; [right; exact Hin | exact He].
    + intros H. destruct (IH H) as [pid' [page' [Hin He]]].
      exists pid', page'. split; [right; exact Hin | exact He].
Qed.

Lemma stored_origin (int_of_str : string -> option Z) (o : Outcome)
    (k : Z) (v : ImageResult.t) :
  In (k, v) (stored int_of_str o) ->
  exists data page_items,
    o = inr data /\ pages_of data = inr page_items
    /\ In (k, v) (page_writes int_of_str page_items).
Proof.
  unfold stored. destruct o as [e|data]; simpl; [intros []|].
  destruct (pages_of data) as [e|page_items] eqn:E; [intros []|].
  intros H. exists data, page_items. split; [reflexivity | split; [exact E | exact H]].
Qed.

(** Requests that all fail store nothing, and none raises past the handler. *)
Lemma failed_outcomes (int_of_str : string -> option Z) (os : list Outcome) :
  forallb failed os = true ->
  forallb caught os = true /\ List.concat (map (stored int_of_str) os) = [].
Proof.
  induction os as [|o os IH]; simpl.
  - intros _. split; reflexivity.
  - intros H. apply andb_true_iff in H. destruct H as [Ho Hos].
    destruct (IH Hos) as [Hc Hs]. destruct o as [e|data]; simpl in *.
    + rewrite Ho, Hc, Hs. split; reflexivity.
    + discriminate.
Qed.

(** ** The request URL *)

Lemma quote_bytes_uint (d : Decimal.uint) :
  Urllib.quote_bytes (NilEmpty.string_of_uint d) = NilEmpty.string_of_uint d.
Proof. induction d; simpl; try rewrite IHd; reflexivity. Qed.

(** The decimal form of an int has no byte that quoting escapes. *)
Lemma quote_bytes_decimal (n : Z) : Urllib.quote_bytes (Py.decimal n) = Py.decimal n.
Proof.
  unfold Py.decimal, NilZero.string_of_int, NilZero.string_of_uint.
  destruct (Z.to_int n) as [d|d]; destruct d; simpl;
    try rewrite quote_bytes_uint; reflexivity.
Qed.

Lemma has_surrogate_cons (c : ascii) (s : string) :
  (N_of_ascii c =? 237)%N = false ->
  Urllib.has_surrogate (String c s) = Urllib.has_surrogate s.
Proof.
  intros H. destruct s as [|d s]; [reflexivity|].
  cbn [Urllib.has_surrogate]. rewrite H. reflexivity.
Qed.

Lemma no_surrogate_uint (d : Decimal.uint) :
  Urllib.has_surrogate (NilEmpty.string_of_uint d) = false.
Proof.
  induction d; cbn [NilEmpty.string_of_uint]; try reflexivity;
    rewrite has_surrogate_cons by reflexivity; exact IHd.
Qed.

Lemma no_surrogate_decimal (n : Z) : Urllib.has_surrogate (Py.decimal n) = false.
Proof.
  unfold Py.decimal, NilZero.string_of_int, NilZero.string_of_uint.
  destruct (Z.to_int n) as [d|d]; destruct d; try reflexivity;
    repeat (rewrite has_surrogate_cons by reflexivity);
    try apply (no_surrogate_uint (Decimal.D0 d)).
  all: try (cbn [NilEmpty.string_of_uint];
            rewrite ?has_surrogate_cons by reflexivity; apply no_surrogate_uint).
Qed.

Lemma quote_plus_decimal (n : Z) :
  Urllib.quote_plus (Py.decimal n) = inr (Py.decimal n).
Proof.
  unfold Urllib.quote_plus, Urllib.encode. rewrite no_surrogate_decimal. simpl.
  rewrite quote_bytes_decimal. reflexivity.
Qed.

Lemma quote_plus_value (s : string) :
  Urllib.quote_plus s
  = if Urllib.has_surrogate s then inl UnicodeEncodeError
    else inr (Urllib.quote_bytes s).
Proof.
  unfold Urllib.quote_plus, Urllib.encode.
  destruct (Urllib.has_surrogate s); reflexivity.
Qed.

(** Line 51, spelled out: what it raises, and the URL when it raises
    nothing. *)
Lemma url_value (q : string) (limit thumb_size : Z) :
  url q limit thumb_size =
  if Urllib.has_surrogate q then inl UnicodeEncodeError
  else if Py.digits (Z.min limit 50) <=? Py.int_max_str_digits
  then if Py.digits thumb_size <=? Py.int_max_str_digits
       then inr ("https://commons.wikimedia.org/w/api.php?action=query&format=json&generator=search&gsrsearch="
                 ++ Urllib.quote_bytes q ++ "&gsrlimit=" ++ Py.decimal (Z.min limit 50)
                 ++ "&prop=pageimages%7Cinfo&inprop=url&pithumbsize="
                 ++ Py.decimal thumb_size)
       else inl ValueError
  else inl ValueError.
Proof.
  unfold url, Urllib.urlencode, params.
  cbn -[Py.digits Py.decimal Z.min Z.leb Py.int_max_str_digits].
  rewrite (quote_plus_value q). unfold Py.str.
  destruct (Urllib.has_surrogate q); [reflexivity|].
  destruct (Py.digits (Z.min limit 50) <=? Py.int_max_str_digits);
    cbn -[Py.digits Py.decimal Z.min Z.leb Py.int_max_str_digits];
    [|reflexivity].
  rewrite quote_plus_decimal.
  destruct (Py.digits thumb_size <=? Py.int_max_str_digits);
    cbn -[Py.digits Py.decimal Z.min Z.leb Py.int_max_str_digits];
    [|reflexivity].
  rewrite quote_plus_decimal.
  cbn -[Py.digits Py.decimal Z.min Z.leb Py.int_max_str_digits].
  reflexivity.
Qed.

Lemma url_spelled_out (q : string) (limit thumb_size : Z) (u : string) :
  url q limit thumb_size = inr u ->
  u = "https://commons.wikimedia.org/w/api.php?action=query&format=json&generator=search&gsrsearch="
      ++ Urllib.quote_bytes q ++ "&gsrlimit=" ++ Py.decimal (Z.min limit 50)
      ++ "&prop=pageimages%7Cinfo&inprop=url&pithumbsize=" ++ Py.decimal thumb_size.
Proof.
  rewrite url_value.
  destruct (Urllib.has_surrogate q); [discriminate|].
  destruct (Py.digits (Z.min limit 50) <=? Py.int_max_str_digits); [|discriminate].
  destruct (Py.digits thumb_size <=? Py.int_max_str_digits); [|discriminate].
  intros H. injection H as H. symmetry. exact H.
Qed.

(** * The claims *)

(** C1, as the spec states it, fails.  In the spec's own scenario (query "A"
    yields page 1, query "B" yields pages 1 and 2) the result for identifier
    1 is not the value of the first assignment to 1: first-write-wins does
    not hold. *)
Lemma first_write_wins_fails :
  ~ first_write_wins DecimalInt.parse duplicate_service ["A"; "B"] 30 800.
Proof.
  intros H.
  specialize (H [result_B1; result_B2] result_B1 eq_refl (or_introl eq_refl)).
  vm_compute in H. discriminate H.
Qed.

(** C1, amended: last-write-wins.  Every result that [search_commons_images]
    returns carries the attributes of the last assignment to its identifier,
    that is, of the last page with that identifier that was stored, over all
    queries; the values that earlier pages gave it are overwritten. *)
Theorem last_write_wins (int_of_str : string -> option Z) (service : Service)
    (queries : list string) (limit thumb_size : Z)
    (out : list ImageResult.t) (r : ImageResult.t) :
  fst (search_commons_images int_of_str service queries limit thumb_size) = inr out ->
  In r out ->
  last_write (ImageResult.id r) (writes int_of_str service queries limit thumb_size)
  = Some r.
Proof.
  intros Hout Hin. apply search_out in Hout. subst out.
  apply In_slice_to in Hin.
  apply replay_values_last_write; [apply writes_keyed | exact Hin].
Qed.

Lemma last_write_wins_witness :
  last_write 1 (writes DecimalInt.parse duplicate_service ["A"; "B"] 30 800)
  = Some result_B1.
Proof.
  apply (last_write_wins DecimalInt.parse duplicate_service ["A"; "B"] 30 800
           [result_B1; result_B2] result_B1).
  - vm_compute. reflexivity.
  - simpl. left. reflexivity.
Defined.

(** C2: if every external call fails, that is, for every query the request
    is issued and fetching or parsing raises (an exception that
    [except Exception] catches, as every error of fetching, decoding and
    parsing is), then [search_commons_images] returns the empty list and
    does not raise. *)
Theorem all_requests_fail (int_of_str : string -> option Z) (service : Service)
    (queries : list string) (limit thumb_size : Z) :
  every_call_fails service queries limit thumb_size = true ->
  fst (search_commons_images int_of_str service queries limit thumb_size) = inr [].
Proof.
  intros H. apply andb_true_iff in H. destruct H as [Hb H].
  destruct (failed_outcomes int_of_str _ H) as [Hc Hs].
  rewrite (search_caught int_of_str service queries limit thumb_size Hb Hc).
  unfold writes. rewrite Hs. simpl.
  unfold slice_to. simpl. destruct (limit <? 0); rewrite firstn_nil; reflexivity.
Qed.

Lemma all_requests_fail_witness :
  fst (search_commons_images DecimalInt.parse failing_service ["A"; "B"] 30 800) = inr [].
Proof.
  apply (all_requests_fail DecimalInt.parse failing_service ["A"; "B"] 30 800).
  vm_compute. reflexivity.
Defined.

(** C3, as the spec states it, fails.  The response to query "A" is
    malformed in its second page: the body of the [try] raises, yet the dict
    has changed, and the result of page 1 of the failed query is returned. *)
Lemma failed_query_keeps_results :
  ~ failure_discards DecimalInt.parse malformed_service (url_text "A" 30 800) [] []
  /\ fst (search_commons_images DecimalInt.parse malformed_service ["A"; "B"] 30 800)
     = inr [result_A1; result_B2].
Proof.
  split.
  - intros H.
    assert (E : try_body DecimalInt.parse malformed_service (url_text "A" 30 800) [] []
                = ([(1, result_A1)], Some AttributeError, [request_for 30 800 "A"]))
      by (vm_compute; reflexivity).
    apply H in E. discriminate E.
  - vm_compute. reflexivity.
Qed.

(** C3, amended: when the request of every query can be built, a failure
    while one query is processed (an exception of the body of the [try] that
    [except Exception] catches) never makes [search_commons_images] raise,
    and the loop goes on with the next query: what is returned is built from
    what every query stored.  A query whose request fails, or whose response
    has no dict of pages, stores nothing; a query that fails while its pages
    are processed keeps what the pages before the failing one stored. *)
Theorem failure_absorbed (int_of_str : string -> option Z) (service : Service)
    (queries : list string) (limit thumb_size : Z) :
  urls_built queries limit thumb_size = true ->
  forallb caught (outcomes service queries limit thumb_size) = true ->
  fst (search_commons_images int_of_str service queries limit thumb_size)
  = inr (slice_to
           (values (replay (List.concat (map (stored int_of_str)
                                           (outcomes service queries limit thumb_size)))
                      []))
           limit)
  /\ (forall e, stored int_of_str (inl e) = [])
  /\ (forall data e, pages_of data = inl e -> stored int_of_str (inr data) = [])
  /\ (forall data page_items,
        pages_of data = inr page_items ->
        stored int_of_str (inr data) = page_writes int_of_str page_items).
Proof.
  intros Hb H. split; [|split; [|split]].
  - rewrite (search_caught int_of_str service queries limit thumb_size Hb H). reflexivity.
  - intros e. reflexivity.
  - intros data e E. unfold stored. simpl. rewrite E. reflexivity.
  - intros data page_items E. unfold stored. simpl. rewrite E. reflexivity.
Qed.

Lemma failure_absorbed_witness :
  fst (search_commons_images DecimalInt.parse timeout_service ["A"; "B"] 30 800)
  = inr [result_B2].
Proof.
  destruct (failure_absorbed DecimalInt.parse timeout_service ["A"; "B"] 30 800)
    as [H _].
  - vm_compute. reflexivity.
  - vm_compute. reflexivity.
  - rewrite H. vm_compute. reflexivity.
Defined.

(** C4: no two results that [search_commons_images] returns have the same
    identifier, for every input and every behaviour of the service. *)
Theorem identifiers_unique (int_of_str : string -> option Z) (service : Service)
    (queries : list string) (limit thumb_size : Z) (out : list ImageResult.t) :
  fst (search_commons_images int_of_str service queries limit thumb_size) = inr out ->
  NoDup (map ImageResult.id out).
Proof.
  intros Hout. apply search_out in Hout. subst out.
  rewrite map_slice_to. destruct (slice_to_prefix
    (map ImageResult.id
       (values (replay (writes int_of_str service queries limit thumb_size) [])))
    limit) as [m ->].
  apply NoDup_firstn.
  rewrite keyed_ids by (apply replay_keyed; [apply writes_keyed | constructor]).
  apply replay_NoDup. constructor.
Qed.

Lemma identifiers_unique_witness :
  NoDup (map ImageResult.id [result_B1; result_B2]).
Proof.
  apply (identifiers_unique DecimalInt.parse duplicate_service ["A"; "B"] 30 800).
  vm_compute. reflexivity.
Defined.

(** C5: for a limit that is not negative, [search_commons_images] returns
    at most [limit] results, for every sequence of queries and every
    behaviour of the service. *)
Theorem at_most_limit_results (int_of_str : string -> option Z) (service : Service)
    (queries : list string) (limit thumb_size : Z) (out : list ImageResult.t) :
  0 <= limit ->
  fst (search_commons_images int_of_str service queries limit thumb_size) = inr out ->
  Z.of_nat (List.length out) <= limit.
Proof.
  intros Hlimit Hout. apply search_out in Hout. subst out.
  unfold slice_to. destruct (limit <? 0) eqn:E; [apply Z.ltb_lt in E; lia|].
  pose proof (firstn_le_length (Z.to_nat limit)
    (values (replay (writes int_of_str service queries limit thumb_size) []))).
  lia.
Qed.

Lemma at_most_limit_results_witness :
  Z.of_nat (List.length [result_A1]) <= 1.
Proof.
  apply (at_most_limit_results DecimalInt.parse two_pages_service ["A"] 1 800).
  - lia.
  - vm_compute. reflexivity.
Defined.

(** With a negative limit the slice of line 72 counts from the end: one of
    the two results is returned. *)
Example negative_limit_counts_from_end :
  fst (search_commons_images DecimalInt.parse two_pages_service ["A"] (-1) 800)
  = inr [result_A1].
Proof. vm_compute. reflexivity. Qed.

(** A page object without a key "thumbnail" stores nothing and raises
    nothing. *)
Lemma page_without_thumbnail_skipped (int_of_str : string -> option Z)
    (pid : string) (d : list (string * json)) :
  lookup "thumbnail" d = None -> page_entry int_of_str pid (JDict d) = inr None.
Proof. intros H. unfold page_entry. simpl. rewrite H. reflexivity. Qed.

(** C6: every result that [search_commons_images] returns comes from a page
    of a response of the service whose object has a key "thumbnail", and
    whose key in the dict of pages is the identifier of the result. *)
Theorem thumbnail_filter (int_of_str : string -> option Z) (service : Service)
    (queries : list string) (limit thumb_size : Z)
    (out : list ImageResult.t) (r : ImageResult.t) :
  fst (search_commons_images int_of_str service queries limit thumb_size) = inr out ->
  In r out ->
  exists data page_items pid d,
    In (inr data) (outcomes service queries limit thumb_size)
    /\ pages_of data = inr page_items
    /\ In (pid, JDict d) page_items
    /\ int_of_str pid = Some (ImageResult.id r)
    /\ lookup "thumbnail" d <> None.
Proof.
  intros Hout Hin. apply search_out in Hout. subst out.
  apply In_slice_to in Hin.
  assert (Hd : keyed (replay (writes int_of_str service queries limit thumb_size) []))
    by (apply replay_keyed; [apply writes_keyed | constructor]).
  apply (keyed_In _ _ Hd) in Hin.
  apply replay_In in Hin. destruct Hin as [Hin|[]].
  unfold writes in Hin. apply in_concat in Hin.
  destruct Hin as [ws [Hws Hin]]. apply in_map_iff in Hws.
  destruct Hws as [o [Ho Hos]]. subst ws.
  apply stored_origin in Hin.
  destruct Hin as [data [page_items [Hdata [Hpages Hin]]]]. subst o.
  apply page_writes_origin in Hin.
  destruct Hin as [pid [page [Hitem Hentry]]].
  apply page_entry_stores in Hentry.
  destruct Hentry as [_ [Hint [d [Hpage Hthumb]]]]. subst page.
  exists data, page_items, pid, d. repeat split; assumption.
Qed.

Lemma thumbnail_filter_witness :
  exists data page_items pid d,
    In (inr data) (outcomes mixed_service ["A"] 30 800)
    /\ pages_of data = inr page_items
    /\ In (pid, JDict d) page_items
    /\ DecimalInt.parse pid = Some (ImageResult.id result_B2)
    /\ lookup "thumbnail" d <> None.
Proof.
  apply (thumbnail_filter DecimalInt.parse mixed_service ["A"] 30 800 [result_B2]).
  - vm_compute. reflexivity.
  - simpl. left. reflexivity.
Defined.

(** C7, as the spec states it, fails.  With a thumbnail size of 4301 digits
    line 51, which stands before the [try], raises [ValueError] when the URL
    of the first query is built: the function raises and has issued no
    request, not one per query. *)
Lemma one_request_per_query_fails :
  search_commons_images DecimalInt.parse duplicate_service ["A"] 30 (10 ^ 4300)
  = (inl ValueError, [])
  /\ List.length
       (snd (search_commons_images DecimalInt.parse duplicate_service ["A"] 30 (10 ^ 4300)))
     <> List.length ["A"].
Proof.
  assert (E : search_commons_images DecimalInt.parse duplicate_service ["A"] 30 (10 ^ 4300)
              = (inl ValueError, [])) by (vm_compute; reflexivity).
  split; [exact E|]. rewrite E. simpl. discriminate.
Qed.

(** C7, amended: when the request of every query can be built (no query
    holds a lone surrogate, and [min(limit, 50)] and [thumb_size] have no
    more digits than [str] converts) and no request is interrupted,
    [search_commons_images] issues exactly one request per query, in the
    order of the queries and none besides, whether the requests fail or
    not. *)
Theorem one_request_per_query (int_of_str : string -> option Z) (service : Service)
    (queries : list string) (limit thumb_size : Z) :
  urls_built queries limit thumb_size = true ->
  forallb caught (outcomes service queries limit thumb_size) = true ->
  snd (search_commons_images int_of_str service queries limit thumb_size)
  = map (request_for limit thumb_size) queries.
Proof.
  intros Hb H.
  rewrite (search_caught int_of_str service queries limit thumb_size Hb H).
  reflexivity.
Qed.

Lemma one_request_per_query_witness :
  snd (search_commons_images DecimalInt.parse timeout_service ["A"; "B"] 30 800)
  = [request_for 30 800 "A"; request_for 30 800 "B"].
Proof.
  apply (one_request_per_query DecimalInt.parse timeout_service ["A"; "B"] 30 800).
  - vm_compute. reflexivity.
  - vm_compute. reflexivity.
Defined.

Lemma search_issued (int_of_str : string -> option Z) (service : Service)
    (queries : list string) (limit thumb_size : Z) :
  exists n,
    snd (search_commons_images int_of_str service queries limit thumb_size)
    = map (request_for limit thumb_size) (firstn n queries)
    /\ urls_built (firstn n queries) limit thumb_size = true.
Proof.
  destruct (queries_loop_issued int_of_str service limit thumb_size queries [] [])
    as [n Hn].
  exists n. unfold search_commons_images.
  destruct (queries_loop int_of_str service queries limit thumb_size [] [])
    as [[e|results] issued]; exact Hn.
Qed.

(** C8: every request that [search_commons_images] issues is the request of
    one of the queries; its parameter [gsrlimit] is [min(limit, 50)], which
    is what its URL carries, and is at most 50 and at most [limit]. *)
Theorem request_limit_capped (int_of_str : string -> option Z) (service : Service)
    (queries : list string) (limit thumb_size : Z) (r : Request) :
  In r (snd (search_commons_images int_of_str service queries limit thumb_size)) ->
  exists q,
    In q queries
    /\ r = request_for limit thumb_size q
    /\ url q limit thumb_size = inr (req_url r)
    /\ Urllib.param "gsrlimit" (params q limit thumb_size)
       = Some (Urllib.VInt (Z.min limit 50))
    /\ req_url r =
       "https://commons.wikimedia.org/w/api.php?action=query&format=json&generator=search&gsrsearch="
       ++ Urllib.quote_bytes q ++ "&gsrlimit=" ++ Py.decimal (Z.min limit 50)
       ++ "&prop=pageimages%7Cinfo&inprop=url&pithumbsize=" ++ Py.decimal thumb_size
    /\ Z.min limit 50 <= 50
    /\ Z.min limit 50 <= limit.
Proof.
  intros Hin.
  destruct (search_issued int_of_str service queries limit thumb_size) as [n [Hn Hb]].
  rewrite Hn in Hin. apply in_map_iff in Hin. destruct Hin as [q [Hr Hq]].
  unfold urls_built in Hb. rewrite forallb_forall in Hb.
  pose proof (url_built_text _ _ _ (Hb q Hq)) as Hurl.
  exists q. split; [|split; [|split; [|split; [|split; [|split]]]]].
  - rewrite <- (firstn_skipn n queries). apply in_or_app. left. exact Hq.
  - symmetry. exact Hr.
  - subst r. simpl. exact Hurl.
  - reflexivity.
  - subst r. simpl. apply (url_spelled_out q limit thumb_size). exact Hurl.
  - lia.
  - lia.
Qed.

Lemma request_limit_capped_witness :
  exists q,
    In q ["A"; "B"]
    /\ request_for 200 800 "B" = request_for 200 800 q
    /\ url q 200 800 = inr (req_url (request_for 200 800 "B"))
    /\ Urllib.param "gsrlimit" (params q 200 800) = Some (Urllib.VInt (Z.min 200 50))
    /\ req_url (request_for 200 800 "B") =
       "https://commons.wikimedia.org/w/api.php?action=query&format=json&generator=search&gsrsearch="
       ++ Urllib.quote_bytes q ++ "&gsrlimit=" ++ Py.decimal (Z.min 200 50)
       ++ "&prop=pageimages%7Cinfo&inprop=url&pithumbsize=" ++ Py.decimal 800
    /\ Z.min 200 50 <= 50
    /\ Z.min 200 50 <= 200.
Proof.
  apply (request_limit_capped DecimalInt.parse duplicate_service ["A"; "B"] 200 800).
  vm_compute. right. left. reflexivity.
Defined.

(** With a limit above 50 the URL asks for 50 results. *)
Example url_limit_200 :
  url "Omsk fortress night" 200 1024 =
  inr "https://commons.wikimedia.org/w/api.php?action=query&format=json&generator=search&gsrsearch=Omsk+fortress+night&gsrlimit=50&prop=pageimages%7Cinfo&inprop=url&pithumbsize=1024".
Proof. vm_compute. reflexivity. Qed.

(** A query that holds a lone surrogate (here U+D800), or an int of 4301
    digits, makes line 51 raise. *)
Example url_lone_surrogate :
  url (String (ascii_of_N 237) (String (ascii_of_N 160) (String (ascii_of_N 128) "")))
    30 800
  = inl UnicodeEncodeError.
Proof. vm_compute. reflexivity. Qed.

Example url_too_many_digits :
  url "A" 30 (10 ^ 4300) = inl ValueError
  /\ url "A" (- 10 ^ 4300) 800 = inl ValueError
  /\ url "A" (10 ^ 4300) 800 = url "A" 50 800.
Proof. vm_compute. repeat split; reflexivity. Qed.

(** C9: the identifiers of the results that [search_commons_images] returns
    follow the order in which the identifiers were first stored, cut at the
    limit, and each result carries the attributes of the last page stored
    under its identifier: storing under a known identifier replaces the value
    and leaves the position. *)
Theorem discovery_order_last_attributes (int_of_str : string -> option Z)
    (service : Service) (queries : list string) (limit thumb_size : Z)
    (out : list ImageResult.t) :
  fst (search_commons_images int_of_str service queries limit thumb_size) = inr out ->
  map ImageResult.id out
  = slice_to
      (first_seen [] (map fst (writes int_of_str service queries limit thumb_size)))
      limit
  /\ (forall r, In r out ->
      last_write (ImageResult.id r) (writes int_of_str service queries limit thumb_size)
      = Some r).
Proof.
  intros Hout. apply search_out in Hout. subst out. split.
  - rewrite map_slice_to. rewrite replay_ids by apply writes_keyed. reflexivity.
  - intros r Hin. apply In_slice_to in Hin.
    apply replay_values_last_write; [apply writes_keyed | exact Hin].
Qed.

Lemma discovery_order_last_attributes_witness :
  map ImageResult.id [result_B1; result_B2]
  = slice_to
      (first_seen [] (map fst (writes DecimalInt.parse duplicate_service ["A"; "B"] 30 800)))
      30
  /\ (forall r, In r [result_B1; result_B2] ->
      last_write (ImageResult.id r)
        (writes DecimalInt.parse duplicate_service ["A"; "B"] 30 800)
      = Some r).
Proof.
  apply (discovery_order_last_attributes DecimalInt.parse duplicate_service
           ["A"; "B"] 30 800).
  vm_compute. reflexivity.
Defined.

(** The assignments of the scenario of two queries that share page 1: the
    identifier 1 is stored twice, first from query "A", then from query "B". *)
Example duplicate_writes :
  writes DecimalInt.parse duplicate_service ["A"; "B"] 30 800
  = [(1, result_A1); (1, result_B1); (2, result_B2)].
Proof. vm_compute. reflexivity. Qed.

(** C10: for the empty sequence of queries [search_commons_images] returns
    the empty list, issues no request and does not raise, for every limit
    and thumbnail size. *)
Theorem empty_queries (int_of_str : string -> option Z) (service : Service)
    (limit thumb_size : Z) :
  search_commons_images int_of_str service [] limit thumb_size = (inr [], []).
Proof.
  unfold search_commons_images. simpl. unfold slice_to. simpl.
  destruct (limit <? 0); rewrite firstn_nil; reflexivity.
Qed.

(** * Further properties of [search_commons_images] *)

(** A request that raises makes the body of the [try] raise the same
    exception, the dict unchanged. *)
Lemma try_body_request_raises (int_of_str : string -> option Z) (service : Service)
    (u : string) (results : Results) (issued : list Request) (e : exn) :
  let req := mkRequest u [("User-Agent", "Flames.Blue Omsk Gallery/1.0")] 10 in
  service issued req = inl e ->
  try_body int_of_str service u results issued = (results, Some e, (issued ++ [req])%list).
Proof.
  intros req H. unfold try_body, _fetch_json. fold req. rewrite H. reflexivity.
Qed.

(** The loop over the queries, after queries whose requests can be built
    and none of which raises past the handler, goes on with the queries that
    follow. *)
Lemma queries_loop_app (int_of_str : string -> option Z) (service : Service)
    (limit thumb_size : Z) (done more : list string)
    (results : Results) (issued : list Request) :
  let requests := map (request_for limit thumb_size) done in
  urls_built done limit thumb_size = true ->
  forallb caught (answers service issued requests) = true ->
  queries_loop int_of_str service (done ++ more) limit thumb_size results issued
  = queries_loop int_of_str service more limit thumb_size
      (replay (List.concat (map (stored int_of_str) (answers service issued requests)))
         results)
      (issued ++ requests)%list.
Proof.
  revert results issued.
  induction done as [|q rest IH]; intros results issued; simpl.
  - intros _ _. rewrite app_nil_r. reflexivity.
  - intros Hb H. apply andb_true_iff in Hb. destruct Hb as [Hbq Hbrest].
    apply andb_true_iff in H. destruct H as [Hq Hrest].
    rewrite (url_built_text _ _ _ Hbq).
    destruct (try_body_spec int_of_str service (url_text q limit thumb_size) results issued)
      as [raised [Hbody [Hcaught _]]].
    fold (request_for limit thumb_size q) in Hbody, Hcaught.
    rewrite Hbody. specialize (Hcaught Hq).
    rewrite replay_app.
    replace (issued ++ request_for limit thumb_size q
                         :: map (request_for limit thumb_size) rest)%list
      with ((issued ++ [request_for limit thumb_size q])
              ++ map (request_for limit thumb_size) rest)%list
      by (rewrite <- app_assoc; reflexivity).
    destruct raised as [e|].
    + rewrite (Hcaught e eq_refl). apply IH; assumption.
    + apply IH; assumption.
Qed.

(** X1: an exception of a request that is not an [Exception] (an interrupt)
    is not swallowed: when the requests up to that of [q] can be built, those
    of the queries before [q] are all answered or caught and the request of
    [q] raises [e], the function raises [e], having issued the requests up to
    that of [q] and none after it. *)
Theorem interrupt_propagates (int_of_str : string -> option Z) (service : Service)
    (done : list string) (q : string) (rest : list string)
    (limit thumb_size : Z) (e : exn) :
  urls_built (done ++ [q]) limit thumb_size = true ->
  forallb caught (outcomes service done limit thumb_size) = true ->
  service (map (request_for limit thumb_size) done) (request_for limit thumb_size q)
  = inl e ->
  is_Exception e = false ->
  search_commons_images int_of_str service (done ++ q :: rest) limit thumb_size
  = (inl e, map (request_for limit thumb_size) (done ++ [q])).
Proof.
  intros Hb Hdone Hq He. unfold search_commons_images.
  unfold urls_built in Hb. rewrite forallb_app in Hb.
  apply andb_true_iff in Hb. destruct Hb as [Hbdone Hbq].
  simpl in Hbq. rewrite andb_true_r in Hbq.
  rewrite (queries_loop_app int_of_str service limit thumb_size done (q :: rest) [] []
             Hbdone Hdone).
  simpl. rewrite (url_built_text _ _ _ Hbq).
  rewrite (try_body_request_raises int_of_str service (url_text q limit thumb_size)
             _ _ e Hq).
  rewrite He. rewrite map_app. reflexivity.
Qed.

Lemma interrupt_propagates_witness :
  search_commons_images DecimalInt.parse interrupted_service (["A"] ++ "B" :: ["C"]) 30 800
  = (inl KeyboardInterrupt, map (request_for 30 800) (["A"] ++ ["B"])).
Proof.
  apply (interrupt_propagates DecimalInt.parse interrupted_service ["A"] "B" ["C"] 30 800).
  - vm_compute. reflexivity.
  - vm_compute. reflexivity.
  - vm_compute. reflexivity.
  - reflexivity.
Defined.

(** X2: the function returns a list exactly when line 51 raises for no
    query (the request of every query can be built) and no request raises an
    exception that is not an [Exception]; what happens while the pages are
    processed never makes it raise. *)
Theorem returns_iff_caught (int_of_str : string -> option Z) (service : Service)
    (queries : list string) (limit thumb_size : Z) :
  (exists out,
     fst (search_commons_images int_of_str service queries limit thumb_size) = inr out)
  <-> urls_built queries limit thumb_size = true
      /\ forallb caught (outcomes service queries limit thumb_size) = true.
Proof.
  split.
  - intros [out H]. eapply search_returns. exact H.
  - intros [Hb H].
    rewrite (search_caught int_of_str service queries limit thumb_size Hb H).
    eexists. reflexivity.
Qed.

(** What a stored page looks like, and what is stored for it. *)
Lemma page_entry_fields (int_of_str : string -> option Z)
    (pid : string) (page : json) (k : Z) (v : ImageResult.t) :
  page_entry int_of_str pid page = inr (Some (k, v)) ->
  exists d t,
    page = JDict d /\ lookup "thumbnail" d = Some (JDict t)
    /\ int_of_str pid = Some k
    /\ v = ImageResult.mk k (field "title" d) (field "fullurl" d)
             (field "source" t) (field "width" t) (field "height" t)
             "Wikimedia Commons" "See source page".
Proof.
  unfold page_entry, image_result, int, get, contains, bind, field.
  intros H. destruct page as [| b | z | lexeme | s | l | d]; simpl in H;
    try discriminate.
  - destruct (substring_of "thumbnail" s); simpl in H;
      [destruct (int_of_str pid)|]; discriminate.
  - destruct (existsb (str_eq "thumbnail") l); simpl in H;
      [destruct (int_of_str pid)|]; discriminate.
  - destruct (lookup "thumbnail" d) as [th|] eqn:Eth; simpl in H; [|discriminate].
    destruct (int_of_str pid) as [n|] eqn:En; simpl in H; [|discriminate].
    destruct th as [| b | z | lexeme | s | l | t]; simpl in H; try discriminate.
    injection H as Hk Hv. subst k v.
    exists d, t.
    split; [reflexivity | split; [exact Eth | split; reflexivity]].
Qed.

(** X3: every result that is returned was built from a page object of a
    response whose "thumbnail" is itself an object: its identifier is
    [int(pid)], its title and page URL are the page's "title" and "fullurl",
    its thumbnail URL, width and height are the thumbnail's "source", "width"
    and "height" ([None] for a key that is missing), and its source and
    license are the two fixed texts. *)
Theorem result_fields (int_of_str : string -> option Z) (service : Service)
    (queries : list string) (limit thumb_size : Z)
    (out : list ImageResult.t) (r : ImageResult.t) :
  fst (search_commons_images int_of_str service queries limit thumb_size) = inr out ->
  In r out ->
  exists data page_items pid d t,
    In (inr data) (outcomes service queries limit thumb_size)
    /\ pages_of data = inr page_items
    /\ In (pid, JDict d) page_items
    /\ lookup "thumbnail" d = Some (JDict t)
    /\ int_of_str pid = Some (ImageResult.id r)
    /\ r = ImageResult.mk (ImageResult.id r) (field "title" d) (field "fullurl" d)
             (field "source" t) (field "width" t) (field "height" t)
             "Wikimedia Commons" "See source page".
Proof.
  intros Hout Hin. apply search_out in Hout. subst out.
  apply In_slice_to in Hin.
  assert (Hd : keyed (replay (writes int_of_str service queries limit thumb_size) []))
    by (apply replay_keyed; [apply writes_keyed | constructor]).
  apply (keyed_In _ _ Hd) in Hin.
  apply replay_In in Hin. destruct Hin as [Hin|[]].
  unfold writes in Hin. apply in_concat in Hin.
  destruct Hin as [ws [Hws Hin]]. apply in_map_iff in Hws.
  destruct Hws as [o [Ho Hos]]. subst ws.
  apply stored_origin in Hin.
  destruct Hin as [data [page_items [Hdata [Hpages Hin]]]]. subst o.
  apply page_writes_origin in Hin.
  destruct Hin as [pid [page [Hitem Hentry]]].
  apply page_entry_fields in Hentry.
  destruct Hentry as [d [t [Hpage [Hthumb [Hint Hv]]]]]. subst page.
  exists data, page_items, pid, d, t.
  split; [exact Hos|]. split; [exact Hpages|]. split; [exact Hitem|].
  split; [exact Hthumb|]. split; [exact Hint | exact Hv].
Qed.

Lemma result_fields_witness :
  exists data page_items pid d t,
    In (inr data) (outcomes mixed_service ["A"] 30 800)
    /\ pages_of data = inr page_items
    /\ In (pid, JDict d) page_items
    /\ lookup "thumbnail" d = Some (JDict t)
    /\ DecimalInt.parse pid = Some (ImageResult.id result_B2)
    /\ result_B2 = ImageResult.mk (ImageResult.id result_B2) (field "title" d)
                     (field "fullurl" d) (field "source" t) (field "width" t)
                     (field "height" t) "Wikimedia Commons" "See source page".
Proof.
  apply (result_fields DecimalInt.parse mixed_service ["A"] 30 800 [result_B2]).
  - vm_compute. reflexivity.
  - simpl. left. reflexivity.
Defined.

Lemma page_writes_reached (int_of_str : string -> option Z)
    (before after : list (string * json)) (pid : string) (page : json)
    (k : Z) (v : ImageResult.t) :
  existsb (page_raises int_of_str) before = false ->
  page_entry int_of_str pid page = inr (Some (k, v)) ->
  In (k, v) (page_writes int_of_str (before ++ (pid, page) :: after)).
Proof.
  intros Hbefore Hentry. induction before as [|[pid' page'] before IH]; simpl.
  - rewrite Hentry. left. reflexivity.
  - simpl in Hbefore. apply orb_false_iff in Hbefore. destruct Hbefore as [Hp Hb].
    unfold page_raises in Hp. simpl in Hp.
    destruct (page_entry int_of_str pid' page') as [e|[kv|]].
    + discriminate.
    + right. apply IH. exact Hb.
    + apply IH. exact Hb.
Qed.

Lemma first_seen_In (seen keys : list Z) (k : Z) :
  In k keys -> In k (seen ++ first_seen seen keys)%list.
Proof.
  revert seen. induction keys as [|k' rest IH]; intros seen; simpl.
  - intros [].
  - intros [E|Hin].
    + subst k'. destruct (existsb (Z.eqb k) seen) eqn:Es.
      * apply in_or_app. left. apply existsb_eqb_In. exact Es.
      * apply in_or_app. right. left. reflexivity.
    + destruct (existsb (Z.eqb k') seen).
      * apply IH. exact Hin.
      * specialize (IH (seen ++ [k'])%list Hin).
        rewrite <- app_assoc in IH. exact IH.
Qed.

Lemma slice_to_all {A : Type} (l : list A) (n : Z) :
  Z.of_nat (List.length l) <= n -> slice_to l n = l.
Proof.
  intros H. unfold slice_to.
  destruct (n <? 0) eqn:E; [apply Z.ltb_lt in E; lia|].
  apply firstn_all2. lia.
Qed.

(** X4: nothing is lost below the limit.  When the number of distinct
    identifiers stored during the run is at most [limit], the identifier of
    every page that was stored (a page handled without an exception, after
    pages of the same response none of which raised) is the identifier of a
    result that is returned. *)
Theorem stored_pages_returned (int_of_str : string -> option Z) (service : Service)
    (queries : list string) (limit thumb_size : Z) (out : list ImageResult.t)
    (data : json) (before after : list (string * json))
    (pid : string) (page : json) (k : Z) (v : ImageResult.t) :
  fst (search_commons_images int_of_str service queries limit thumb_size) = inr out ->
  Z.of_nat (List.length
              (first_seen [] (map fst (writes int_of_str service queries limit thumb_size))))
  <= limit ->
  In (inr data) (outcomes service queries limit thumb_size) ->
  pages_of data = inr (before ++ (pid, page) :: after)%list ->
  existsb (page_raises int_of_str) before = false ->
  page_entry int_of_str pid page = inr (Some (k, v)) ->
  exists r, In r out /\ ImageResult.id r = k.
Proof.
  intros Hout Hcount Hdata Hpages Hbefore Hentry.
  apply search_out in Hout.
  pose proof (replay_ids _ (writes_keyed int_of_str service queries limit thumb_size))
    as Hids.
  rewrite slice_to_all in Hout.
  2:{ rewrite <- Hids, length_map in Hcount. exact Hcount. }
  subst out.
  assert (Hw : In (k, v) (writes int_of_str service queries limit thumb_size)).
  { unfold writes. apply in_concat.
    exists (stored int_of_str (inr data)). split.
    - apply in_map. exact Hdata.
    - unfold stored. simpl. rewrite Hpages.
      apply page_writes_reached; assumption. }
  assert (Hk : In k (first_seen []
                       (map fst (writes int_of_str service queries limit thumb_size)))).
  { apply (first_seen_In [] _ k). change k with (fst (k, v)). apply in_map. exact Hw. }
  rewrite <- Hids in Hk. apply in_map_iff in Hk. destruct Hk as [r [Hr Hin]].
  exists r. split; assumption.
Qed.

Lemma stored_pages_returned_witness :
  exists r, In r [result_B1; result_B2] /\ ImageResult.id r = 2.
Proof.
  apply (stored_pages_returned DecimalInt.parse duplicate_service ["A"; "B"] 30 800
           [result_B1; result_B2]
           (JDict [ ("batchcomplete", JStr "");
                    ("query", JDict [("pages", JDict [("1", page_B1); ("2", page_B2)])]) ])
           [("1", page_B1)] [] "2" page_B2 2 result_B2).
  - vm_compute. reflexivity.
  - vm_compute. discriminate.
  - vm_compute. right. left. reflexivity.
  - vm_compute. reflexivity.
  - vm_compute. reflexivity.
  - vm_compute. reflexivity.
Defined.

(** X5: a response without hits is no error.  When the response is an
    object without a key "query", or whose "query" is an object without a
    key "pages", the body of the [try] raises nothing and leaves the dict as
    it was. *)
Theorem empty_response_ignored (int_of_str : string -> option Z) (service : Service)
    (u : string) (results : Results) (issued : list Request)
    (d : list (string * json)) :
  let req := mkRequest u [("User-Agent", "Flames.Blue Omsk Gallery/1.0")] 10 in
  service issued req = inr (JDict d) ->
  lookup "query" d = None
  \/ (exists q, lookup "query" d = Some (JDict q) /\ lookup "pages" q = None) ->
  try_body int_of_str service u results issued = (results, None, (issued ++ [req])%list).
Proof.
  intros req Hresp Hmissing. unfold try_body, _fetch_json. fold req.
  rewrite Hresp. simpl. unfold pages_of. simpl.
  destruct Hmissing as [Hq|[q [Hq Hp]]]; rewrite Hq; simpl.
  - reflexivity.
  - rewrite Hp. simpl. reflexivity.
Qed.

Lemma empty_response_ignored_witness :
  try_body DecimalInt.parse (scripted [no_hits]) (url_text "A" 30 800) [(1, result_A1)] []
  = ([(1, result_A1)], None, [request_for 30 800 "A"]).
Proof.
  apply (empty_response_ignored DecimalInt.parse (scripted [no_hits]) (url_text "A" 30 800)
           [(1, result_A1)] [] [("batchcomplete", JStr "")]).
  - vm_compute. reflexivity.
  - left. vm_compute. reflexivity.
Defined.

(** ** The encoding of the query *)

Lemma bytes_app (a b : string) :
  list_ascii_of_string (a ++ b)
  = (list_ascii_of_string a ++ list_ascii_of_string b)%list.
Proof. induction a as [|c a IH]; simpl; [|rewrite IH]; reflexivity. Qed.

Lemma append_assoc (a b c : string) : (a ++ b) ++ c = a ++ b ++ c.
Proof. induction a as [|x a IH]; simpl; [|rewrite IH]; reflexivity. Qed.

Lemma append_inv_head (a x y : string) : a ++ x = a ++ y -> x = y.
Proof.
  induction a as [|c a IH]; simpl; intros H; [exact H|].
  injection H as H. apply IH. exact H.
Qed.

Lemma append_inv_tail (x y u : string) : x ++ u = y ++ u -> x = y.
Proof.
  intros H. apply (f_equal list_ascii_of_string) in H.
  rewrite !bytes_app in H. apply app_inv_tail in H.
  rewrite <- (string_of_list_ascii_of_string x), <- (string_of_list_ascii_of_string y).
  rewrite H. reflexivity.
Qed.

(** Decoding undoes the quoting of one byte, whatever follows. *)
Lemma unquote_quote_byte (c : ascii) (rest : string) :
  Unquote.unquote_plus (Urllib.quote_byte c ++ rest)
  = String c (Unquote.unquote_plus rest).
Proof.
  destruct c as [[] [] [] [] [] [] [] []]; reflexivity.
Qed.

Lemma unquote_quote_plus (s rest : string) :
  Unquote.unquote_plus (Urllib.quote_bytes s ++ rest) = s ++ Unquote.unquote_plus rest.
Proof.
  induction s as [|c s IH]; simpl.
  - reflexivity.
  - rewrite append_assoc, unquote_quote_byte, IH. reflexivity.
Qed.

(** X6: the encoding of the query loses nothing: within a call (same limit
    and thumbnail size) the URLs built for two different queries are
    different, so distinct queries are sent as distinct requests. *)
Theorem distinct_queries_distinct_urls (q1 q2 : string) (limit thumb_size : Z)
    (u1 u2 : string) :
  q1 <> q2 ->
  url q1 limit thumb_size = inr u1 ->
  url q2 limit thumb_size = inr u2 ->
  u1 <> u2.
Proof.
  intros Hne H1 H2 H. apply Hne.
  apply url_spelled_out in H1. apply url_spelled_out in H2.
  rewrite H1, H2 in H.
  apply append_inv_head in H.
  apply (f_equal Unquote.unquote_plus) in H.
  rewrite !unquote_quote_plus in H.
  apply append_inv_tail in H. exact H.
Qed.

Lemma distinct_queries_distinct_urls_witness :
  url_text "Omsk night" 32 1024 <> url_text "Omsk+night" 32 1024.
Proof.
  apply (distinct_queries_distinct_urls "Omsk night" "Omsk+night" 32 1024).
  - discriminate.
  - vm_compute. reflexivity.
  - vm_compute. reflexivity.
Defined.

Lemma forallb_bytes_app (p : ascii -> bool) (a b : string) :
  forallb p (list_ascii_of_string (a ++ b))
  = forallb p (list_ascii_of_string a) && forallb p (list_ascii_of_string b).
Proof. rewrite bytes_app. apply forallb_app. Qed.

Lemma quote_byte_url_bytes (c : ascii) :
  forallb url_byte (list_ascii_of_string (Urllib.quote_byte c)) = true.
Proof.
  destruct c as [[] [] [] [] [] [] [] []]; reflexivity.
Qed.

Lemma quote_bytes_url_bytes (s : string) :
  forallb url_byte (list_ascii_of_string (Urllib.quote_bytes s)) = true.
Proof.
  induction s as [|c s IH]; simpl.
  - reflexivity.
  - rewrite forallb_bytes_app, quote_byte_url_bytes, IH. reflexivity.
Qed.

Lemma uint_url_bytes (d : Decimal.uint) :
  forallb url_byte (list_ascii_of_string (NilEmpty.string_of_uint d)) = true.
Proof. induction d; simpl; try rewrite IHd; reflexivity. Qed.

Lemma decimal_url_bytes (n : Z) :
  forallb url_byte (list_ascii_of_string (Py.decimal n)) = true.
Proof.
  unfold Py.decimal, NilZero.string_of_int, NilZero.string_of_uint.
  destruct (Z.to_int n) as [d|d]; destruct d; simpl;
    try rewrite uint_url_bytes; reflexivity.
Qed.

(** X7: the URL of a request is made of ASCII letters, digits and the
    bytes [_ . - ~ + % : / ? & =] only, whatever bytes the query holds and
    whatever the limit and the thumbnail size are: blanks, control bytes and
    bytes above 127 never reach the URL. *)
Theorem url_bytes_safe (q : string) (limit thumb_size : Z) (u : string) :
  url q limit thumb_size = inr u ->
  forallb url_byte (list_ascii_of_string u) = true.
Proof.
  intros H. apply url_spelled_out in H. subst u.
  repeat rewrite forallb_bytes_app.
  rewrite quote_bytes_url_bytes, !decimal_url_bytes. reflexivity.
Qed.

Lemma url_bytes_safe_witness :
  forallb url_byte (list_ascii_of_string (url_text "Омск ночь" 32 1024)) = true.
Proof.
  apply (url_bytes_safe "Омск ночь" 32 1024).
  vm_compute. reflexivity.
Defined.

(** * Properties of [omsk_photos] *)

(** X8: the response of the endpoint is a dict with the one key "items",
    whose value has at most 32 results, no two with the same identifier,
    whatever the service answers. *)
Theorem omsk_photos_items (int_of_str : string -> option Z) (service : Service)
    (resp : list (string * list ImageResult.t)) :
  fst (omsk_photos int_of_str service) = inr resp ->
  exists found,
    resp = [("items", found)]
    /\ (List.length found <= 32)%nat
    /\ NoDup (map ImageResult.id found).
Proof.
  unfold omsk_photos.
  destruct (search_commons_images int_of_str service omsk_queries 32 1024)
    as [[e|found] issued] eqn:E; simpl; intros H; [discriminate|].
  injection H as H. subst resp. exists found.
  assert (Hout : fst (search_commons_images int_of_str service omsk_queries 32 1024)
                 = inr found) by (rewrite E; reflexivity).
  apply search_out in Hout. split; [reflexivity|]. split.
  - subst found. apply firstn_le_length.
  - subst found. rewrite map_slice_to.
    destruct (slice_to_prefix
      (map ImageResult.id
         (values (replay (writes int_of_str service omsk_queries 32 1024) [])))
      32) as [m ->].
    apply NoDup_firstn.
    rewrite keyed_ids by (apply replay_keyed; [apply writes_keyed | constructor]).
    apply replay_NoDup. constructor.
Qed.

Lemma omsk_photos_items_witness :
  exists found,
    [("items", crowded_items)] = [("items", found)]
    /\ (List.length found <= 32)%nat
    /\ NoDup (map ImageResult.id found).
Proof.
  apply (omsk_photos_items DecimalInt.parse crowded_service).
  vm_compute. reflexivity.
Defined.

(** On [crowded_service] 60 pages are stored under 50 identifiers; the 32
    items returned are those of the identifiers 1 to 32, the last two of
    them as the second query found them. *)
Example crowded_items_cut :
  List.length (writes DecimalInt.parse crowded_service omsk_queries 32 1024) = 60%nat
  /\ List.length crowded_items = 32%nat
  /\ map ImageResult.id crowded_items = map Z.of_nat (seq 1 32)
  /\ map ImageResult.title (skipn 29 crowded_items)
     = [JStr "first-30"; JStr "second-31"; JStr "second-32"].
Proof. vm_compute. repeat split; reflexivity. Qed.

(** X9: when no request is interrupted, the endpoint issues eight requests,
    one per query of its list and in that order, each asking for 32 results
    per query and thumbnails of 1024 pixels, and returns its dict. *)
Theorem omsk_photos_requests (int_of_str : string -> option Z) (service : Service) :
  forallb caught (outcomes service omsk_queries 32 1024) = true ->
  exists found,
    omsk_photos int_of_str service
    = (inr [("items", found)],
       map (fun q =>
              mkRequest
                ("https://commons.wikimedia.org/w/api.php?action=query&format=json&generator=search&gsrsearch="
                 ++ Urllib.quote_bytes q
                 ++ "&gsrlimit=32&prop=pageimages%7Cinfo&inprop=url&pithumbsize=1024")
                [("User-Agent", "Flames.Blue Omsk Gallery/1.0")] 10)
           omsk_queries)
    /\ List.length (snd (omsk_photos int_of_str service)) = 8%nat.
Proof.
  intros H. unfold omsk_photos.
  assert (Hb : urls_built omsk_queries 32 1024 = true) by (vm_compute; reflexivity).
  rewrite (search_caught int_of_str service omsk_queries 32 1024 Hb H).
  eexists. split.
  - apply f_equal2; [reflexivity|]. vm_compute. reflexivity.
  - reflexivity.
Qed.

Lemma omsk_photos_requests_witness :
  exists found,
    omsk_photos DecimalInt.parse (scripted [])
    = (inr [("items", found)],
       map (fun q =>
              mkRequest
                ("https://commons.wikimedia.org/w/api.php?action=query&format=json&generator=search&gsrsearch="
                 ++ Urllib.quote_bytes q
                 ++ "&gsrlimit=32&prop=pageimages%7Cinfo&inprop=url&pithumbsize=1024")
                [("User-Agent", "Flames.Blue Omsk Gallery/1.0")] 10)
           omsk_queries)
    /\ List.length (snd (omsk_photos DecimalInt.parse (scripted []))) = 8%nat.
Proof.
  apply (omsk_photos_requests DecimalInt.parse (scripted [])).
  vm_compute. reflexivity.
Defined.

(** * Properties of [test_database] *)

Lemma char_length_app (a b : string) :
  Probe.char_length (a ++ b) = (Probe.char_length a + Probe.char_length b)%nat.
Proof.
  induction a as [|c a IH]; simpl.
  - reflexivity.
  - rewrite IH. destruct (Probe.is_continuation c); reflexivity.
Qed.

Lemma char_length_take_chars (n : nat) (s : string) :
  (Probe.char_length (Probe.take_chars n s) <= n)%nat.
Proof.
  revert n. induction s as [|c s IH]; intros n; simpl.
  - lia.
  - destruct (Probe.is_continuation c) eqn:E; simpl.
    + rewrite E. apply IH.
    + destruct n as [|n]; simpl.
      * lia.
      * rewrite E. specialize (IH n). lia.
Qed.

(** The cases of a run of the probe: the outcome of the import, then of
    the access to [db.name], then of the listing, each exception by its
    class. *)
Ltac error_class e :=
  let c := fresh "c" in
  let Hclass := fresh "Hclass" in
  let Hexc := fresh "Hexc" in
  destruct (Probe.class e) as [|c] eqn:Hclass; simpl; rewrite ?Hclass; simpl;
  [| destruct (Py.is_Exception c) eqn:Hexc; simpl;
     rewrite ?Hclass; simpl; rewrite ?Hexc; simpl].

Ltac probe_cases object import_db :=
  let e := fresh "e" in
  let db := fresh "db" in
  let v := fresh "v" in
  let names := fresh "names" in
  unfold Probe.test_database, Probe.probe_handled, Probe.probe,
    Probe.list_collections, Probe.no_interrupt, Probe.is_ImportError,
    Probe.is_Exception;
  destruct import_db as [e | [db |]]; simpl;
  [ error_class e
  | destruct (Probe.name_or_connected object db) as [e | v] eqn:?; simpl;
    [ error_class e
    | destruct (Probe.list_collection_names object db) as [e | names] eqn:?; simpl;
      [ error_class e | ] ]
  | ].

Section ProbeProperties.

Variable object : Type.

(** X10: the probe raises only on an interrupt.  [test_database] returns a
    response exactly when none of the import, the access to [db.name] and
    the listing of the collections raises an exception that is not an
    [Exception]; an [ImportError] and every other [Exception] are turned
    into a status text. *)
Theorem test_database_returns_iff
    (import_db : Probe.Error + option (Probe.Database object))
    (getenv : string -> option string) :
  (exists r, Probe.test_database object import_db getenv = inr r)
  <-> Probe.no_interrupt object import_db = true.
Proof.
  probe_cases object import_db; split;
    try (intros _; reflexivity);
    try (intros _; eexists; reflexivity);
    try discriminate;
    try (intros [r H]; discriminate H).
Qed.

(** X11: the two environment fields of the response depend on the
    environment only.  Whatever the import gave, "database_url" and
    "database_name" say whether [DATABASE_URL] and [DATABASE_NAME] are set
    to a non-empty value: the values stored for them while the database is
    probed, [db.name] among them, never reach the caller. *)
Theorem env_fields_from_environment
    (import_db : Probe.Error + option (Probe.Database object))
    (getenv : string -> option string) (r : Probe.Response object) :
  Probe.test_database object import_db getenv = inr r ->
  Probe.database_url object r
  = Probe.VStr object
      (if Probe.env_set getenv "DATABASE_URL" then "✅ Set" else "❌ Not Set")
  /\ Probe.database_name object r
     = Probe.VStr object
         (if Probe.env_set getenv "DATABASE_NAME" then "✅ Set" else "❌ Not Set").
Proof.
  probe_cases object import_db; intros H; try discriminate H;
    injection H as H; subst r; simpl; split; reflexivity.
Qed.

(** Line 158 raises nothing in three cases: [db] has no attribute [name],
    the access to it raises [AttributeError] (in both [hasattr] is false and
    the text "Connected" is taken), or the attribute holds a value. *)
Lemma name_or_connected_returns (db : Probe.Database object) (v : Probe.value object) :
  Probe.name_or_connected object db = inr v
  <-> (Probe.name object db = None /\ v = Probe.VStr object "✅ Connected")
      \/ (exists e, Probe.name object db = Some (inl e)
                    /\ Probe.is_AttributeError e = true
                    /\ v = Probe.VStr object "✅ Connected")
      \/ (exists o, Probe.name object db = Some (inr o) /\ v = Probe.VObject object o).
Proof.
  unfold Probe.name_or_connected, Probe.hasattr_name, Probe.getattr_name.
  destruct (Probe.name object db) as [[e|o]|] eqn:E.
  - destruct (Probe.is_AttributeError e) eqn:Ea; split.
    + intros H. injection H as H. right. left. exists e. repeat split; congruence.
    + intros [[H _]|[[e' [_ [_ H]]]|[o [H _]]]]; try discriminate. congruence.
    + discriminate.
    + intros [[H _]|[[e' [H [Ha _]]]|[o [H _]]]]; try discriminate.
      injection H as H. subst e'. congruence.
  - split.
    + intros H. injection H as H. right. right. exists o. split; congruence.
    + intros [[H _]|[[e' [H _]]|[o' [H Hv]]]]; try discriminate.
      injection H as H. subst o'. congruence.
  - split.
    + intros H. injection H as H. left. split; congruence.
    + intros [[_ H]|[[e' [H _]]|[o' [H _]]]]; try discriminate. congruence.
Qed.


(** X13: the status text is bounded.  The field "database" of the response
    has at most 75 characters, however long the message of the exception
    is: only the first 50 characters of [str(e)] are kept. *)
Theorem database_status_bounded
    (import_db : Probe.Error + option (Probe.Database object))
    (getenv : string -> option string) (r : Probe.Response object) :
  Probe.test_database object import_db getenv = inr r ->
  (Probe.char_length (Probe.database object r) <= 75)%nat.
Proof.
  probe_cases object import_db; intros H; try discriminate H;
    injection H as H; subst r; simpl;
    try match goal with
        | |- context [Probe.take_chars 50 ?m] =>
            pose proof (char_length_take_chars 50 m)
        end;
    lia.
Qed.

(** X14: the response reads "Connected & Working" exactly when a database
    was imported, line 158 raised nothing (which it also does not when [db]
    has no attribute [name]) and the listing of the collections
    succeeded. *)
Theorem working_iff_listed
    (import_db : Probe.Error + option (Probe.Database object))
    (getenv : string -> option string) (r : Probe.Response object) :
  Probe.test_database object import_db getenv = inr r ->
  (Probe.database object r = "✅ Connected & Working"
   <-> exists db v names,
         import_db = inr (Some db)
         /\ Probe.name_or_connected object db = inr v
         /\ Probe.list_collection_names object db = inr names).
Proof.
  probe_cases object import_db; intros H; try discriminate H;
    injection H as H; subst r; simpl; split;
    try discriminate;
    try (intros [db' [v' [names' [E1 [E2 E3]]]]]; congruence);
    try (intros _; do 3 eexists; repeat split; eassumption).
Qed.

(** X15: the response reads "Connected" exactly when a database was
    imported and line 158 raised nothing (which it also does not when [db]
    has no attribute [name]), whether or not the listing of the collections
    succeeded afterwards. *)
Theorem connected_iff_named
    (import_db : Probe.Error + option (Probe.Database object))
    (getenv : string -> option string) (r : Probe.Response object) :
  Probe.test_database object import_db getenv = inr r ->
  (Probe.connection_status object r = "Connected"
   <-> exists db v,
         import_db = inr (Some db)
         /\ Probe.name_or_connected object db = inr v).
Proof.
  probe_cases object import_db; intros H; try discriminate H;
    injection H as H; subst r; simpl; split;
    try discriminate;
    try (intros [db' [v' [E1 E2]]]; congruence);
    try (intros _; do 2 eexists; repeat split; eassumption).
Qed.

End ProbeProperties.

Lemma env_fields_from_environment_witness :
  Probe.database_url string working_response
  = Probe.VStr string
      (if Probe.env_set sample_env "DATABASE_URL" then "✅ Set" else "❌ Not Set")
  /\ Probe.database_name string working_response
     = Probe.VStr string
         (if Probe.env_set sample_env "DATABASE_NAME" then "✅ Set" else "❌ Not Set").
Proof.
  apply (env_fields_from_environment string (inr (Some working_db)) sample_env).
  vm_compute. reflexivity.
Defined.


Lemma database_status_bounded_witness :
  (Probe.char_length (Probe.database string unreachable_response) <= 75)%nat.
Proof.
  apply (database_status_bounded string (inr (Some unreachable_db)) sample_env).
  vm_compute. reflexivity.
Defined.

Lemma working_iff_listed_witness :
  Probe.database string working_response = "✅ Connected & Working"
  <-> exists db v names,
        (inr (Some nameless_db) : Probe.Error + option (Probe.Database string)) = inr (Some db)
        /\ Probe.name_or_connected string db = inr v
        /\ Probe.list_collection_names string db = inr names.
Proof.
  apply (working_iff_listed string (inr (Some nameless_db)) sample_env).
  vm_compute. reflexivity.
Defined.

Lemma connected_iff_named_witness :
  Probe.connection_status string unreachable_response = "Connected"
  <-> exists db v,
        (inr (Some unreachable_db) : Probe.Error + option (Probe.Database string)) = inr (Some db)
        /\ Probe.name_or_connected string db = inr v.
Proof.
  apply (connected_iff_named string (inr (Some unreachable_db)) sample_env).
  vm_compute. reflexivity.
Defined.

(** The message of 64 characters is cut to its first 50: the status has 75
    characters. *)
Example unreachable_status_length :
  Probe.char_length (Probe.database string unreachable_response) = 75%nat.
Proof. vm_compute. reflexivity. Qed.

(** A database without an attribute [name] is reported as connected and
    working, with its first ten collections. *)
Example nameless_db_working :
  Probe.test_database string (inr (Some nameless_db)) sample_env = inr working_response.
Proof. vm_compute. reflexivity. Qed.
